(** * Reffy: loading a specification and gating its resources (src/util.js)

    A shallow embedding of the document loading code of [src/util.js]:
    the resource loader installed in JSDOM ([resourceLoader.download]),
    [loadSpecificationFromHtml], [loadSpecificationFromUrl],
    [loadSpecification] and [getDocumentAndGenerator].

    JavaScript strings are sequences of UTF-16 code units.  The host
    libraries the code calls (the HTTP fetcher, JSDOM, [URL.resolve],
    [String.prototype.toLowerCase]) are fields of a [Host] record: every
    theorem holds for every host. *)

From Stdlib Require Import String Ascii List NArith ZArith Arith Bool Lia.
From Equations Require Import Equations.
Import ListNotations.

Set Implicit Arguments.

(** ** JavaScript strings *)

Module JS.

Definition jsstring := list N.

(** An ASCII literal of the source as a sequence of code units. *)
Definition lit (s : string) : jsstring :=
  map N_of_ascii (list_ascii_of_string s).

(** [a === b] on strings. *)
Fixpoint eqs (a b : jsstring) : bool :=
  match a, b with
  | [], [] => true
  | x :: a', y :: b' => N.eqb x y && eqs a' b'
  | _, _ => false
  end.

(** A string is truthy when it is not empty. *)
Definition truthy (s : jsstring) : bool :=
  match s with [] => false | _ :: _ => true end.

(** Truthiness of a value that is a string, undefined or null. *)
Definition truthy' (v : option jsstring) : bool :=
  match v with Some s => truthy s | None => false end.

(** [v || d] where [v] is a string, undefined or null. *)
Definition orElse (v : option jsstring) (d : jsstring) : jsstring :=
  match v with
  | Some s => if truthy s then s else d
  | None => d
  end.

(** [n || 0] where [n] is a number or undefined. *)
Definition orZero (n : option nat) : nat :=
  match n with Some n => n | None => 0 end.

(** [s.charCodeAt(i)]; [None] stands for NaN. *)
Definition charCodeAt (s : jsstring) (i : nat) : option N := nth_error s i.

Fixpoint startsWith (s p : jsstring) {struct p} : bool :=
  match p, s with
  | [], _ => true
  | y :: p', x :: s' => N.eqb x y && startsWith s' p'
  | _ :: _, [] => false
  end.

Definition endsWith (s p : jsstring) : bool :=
  startsWith (rev s) (rev p).

Fixpoint includes (s p : jsstring) : bool :=
  startsWith s p ||
  match s with
  | [] => false
  | _ :: s' => includes s' p
  end.

(** [s.lastIndexOf(p)]: the greatest index at which [p] occurs, or -1. *)
Fixpoint lastIndexFrom (s p : jsstring) (i : Z) (found : Z) : Z :=
  let found' := if startsWith s p then i else found in
  match s with
  | [] => found'
  | _ :: s' => lastIndexFrom s' p (i + 1) found'
  end.

Definition lastIndexOf (s p : jsstring) : Z := lastIndexFrom s p 0 (-1).

(** [s.substring(a, b)]: both indices are clamped to the string and
    swapped when [a > b]. *)
Definition clamp (s : jsstring) (i : Z) : nat :=
  Nat.min (Z.to_nat i) (length s).

Definition substring (s : jsstring) (a b : Z) : jsstring :=
  let a' := clamp s a in
  let b' := clamp s b in
  let lo := Nat.min a' b' in
  let hi := Nat.max a' b' in
  firstn (hi - lo) (skipn lo s).

(** [s.substring(a)]. *)
Definition substringFrom (s : jsstring) (a : Z) : jsstring :=
  skipn (clamp s a) s.

(** [s.split(c)] for a separator of one code unit. *)
Fixpoint split (s : jsstring) (c : N) : list jsstring :=
  match s with
  | [] => [[]]
  | x :: s' =>
      if N.eqb x c then [] :: split s' c
      else match split s' c with
           | [] => [[x]]
           | f :: fs => (x :: f) :: fs
           end
  end.

(** WhiteSpace and LineTerminator code units: what [trim] strips and
    what the class [\s] matches. *)
Definition isLineTerminator (c : N) : bool :=
  (N.eqb c 10 || N.eqb c 13 || N.eqb c 8232 || N.eqb c 8233)%bool.

Definition isSpace (c : N) : bool :=
  (N.eqb c 9 || N.eqb c 11 || N.eqb c 12 || N.eqb c 32 || N.eqb c 160
   || N.eqb c 5760 || (N.leb 8192 c && N.leb c 8202)
   || N.eqb c 8239 || N.eqb c 8287 || N.eqb c 12288 || N.eqb c 65279
   || isLineTerminator c)%bool.

Fixpoint trimStart (s : jsstring) : jsstring :=
  match s with
  | [] => []
  | c :: s' => if isSpace c then trimStart s' else s
  end.

Definition trim (s : jsstring) : jsstring :=
  rev (trimStart (rev (trimStart s))).

End JS.

(** ** Regular expressions

    The fragment of ECMAScript patterns the source uses: a sequence of
    characters and classes, quantified classes (greedy or lazy), the two
    anchors and the end of one capture group that opens at the start of
    the pattern.  The matcher is the backtracking matcher of the
    language: a quantifier receives the rest of the pattern as its
    continuation. *)

Module RegExp.
Import JS.

Inductive atom : Type :=
| Bos                                  (* ^ *)
| Eos                                  (* $ *)
| Chr (p : N -> bool)                  (* one character or class *)
| Greedy (p : N -> bool) (min : nat)   (* p* is min 0, p+ is min 1 *)
| Lazy (p : N -> bool) (min : nat)     (* p*? and p+? *)
| EndGroup.                            (* the ")" of group 1 *)

Definition pattern := list atom.

(** End of the match and end of group 1, as indices in the input. *)
Definition ends := (nat * option nat)%type.

Section Quantifiers.
Variable p : N -> bool.
Variable k : nat -> jsstring -> option ends.

Fixpoint greedy (min : nat) (pos : nat) (s : jsstring) : option ends :=
  match s with
  | c :: s' =>
      if p c then
        match greedy (pred min) (S pos) s' with
        | Some r => Some r
        | None => if Nat.eqb min 0 then k pos s else None
        end
      else if Nat.eqb min 0 then k pos s else None
  | [] => if Nat.eqb min 0 then k pos s else None
  end.

Fixpoint lazy (min : nat) (pos : nat) (s : jsstring) : option ends :=
  let more :=
    match s with
    | c :: s' => if p c then lazy (pred min) (S pos) s' else None
    | [] => None
    end in
  if Nat.eqb min 0 then
    match k pos s with
    | Some r => Some r
    | None => more
    end
  else more.
End Quantifiers.

(** [matchAt r pos s]: match [r] against [s], the input from index
    [pos] on. *)
Fixpoint matchAt (r : pattern) (pos : nat) (s : jsstring) : option ends :=
  match r with
  | [] => Some (pos, None)
  | Bos :: r' => if Nat.eqb pos 0 then matchAt r' pos s else None
  | Eos :: r' => match s with [] => matchAt r' pos s | _ :: _ => None end
  | Chr p :: r' =>
      match s with
      | c :: s' => if p c then matchAt r' (S pos) s' else None
      | [] => None
      end
  | Greedy p min :: r' => greedy p (matchAt r') min pos s
  | Lazy p min :: r' => lazy p (matchAt r') min pos s
  | EndGroup :: r' =>
      match matchAt r' pos s with
      | Some (e, _) => Some (e, Some pos)
      | None => None
      end
  end.

(** The leftmost match at or after [pos]: start, end, end of group 1. *)
Fixpoint search (r : pattern) (pos : nat) (s : jsstring)
  : option (nat * nat * option nat) :=
  match matchAt r pos s with
  | Some (e, g) => Some (pos, e, g)
  | None =>
      match s with
      | [] => None
      | _ :: s' => search r (S pos) s'
      end
  end.

Definition exec (r : pattern) (s : jsstring) := search r 0 s.

(** [r.test(s)]. *)
Definition test (r : pattern) (s : jsstring) : bool :=
  match exec r s with Some _ => true | None => false end.

(** Replacement texts of the source: plain text, or ["$1"]. *)
Inductive replacement : Type :=
| Text (t : jsstring)
| Group1.

Definition expand (t : replacement) (s : jsstring)
           (start : nat) (g : option nat) : jsstring :=
  match t with
  | Text t => t
  | Group1 =>
      match g with
      | Some ge => firstn (ge - start) (skipn start s)
      | None => []
      end
  end.

(** [s.replace(r, t)] for a pattern without the [g] flag. *)
Definition replace (r : pattern) (t : replacement) (s : jsstring)
  : jsstring :=
  match exec r s with
  | None => s
  | Some (i, e, g) => firstn i s ++ expand t s i g ++ skipn e s
  end.

(** [s.replace(r, t)] for a pattern with the [g] flag: [rest] is the
    input from [pos] on; after an empty match the next code unit is
    copied and the search resumes behind it. *)
Fixpoint replaceFrom (fuel : nat) (r : pattern) (t : replacement)
         (whole : jsstring) (pos : nat) (rest : jsstring) : jsstring :=
  match fuel with
  | 0 => rest
  | S fuel' =>
      match search r pos rest with
      | None => rest
      | Some (i, e, g) =>
          firstn (i - pos) rest ++ expand t whole i g ++
          (if Nat.eqb e i then
             match skipn (i - pos) rest with
             | [] => []
             | c :: rest' =>
                 c :: replaceFrom fuel' r t whole (S i) rest'
             end
           else replaceFrom fuel' r t whole e (skipn (e - pos) rest))
      end
  end.

Definition replaceAll (r : pattern) (t : replacement) (s : jsstring)
  : jsstring :=
  replaceFrom (S (length s)) r t s 0 s.

(** Canonicalisation of the [i] flag.  Lower-case ASCII letters map to
    upper case; a code unit outside ASCII never canonicalises into
    ASCII, so against the ASCII patterns of the source it is compared
    as it is. *)
Definition canonicalize (c : N) : N :=
  if (N.leb 97 c && N.leb c 122)%bool then (c - 32)%N else c.

Definition chr (c : N) : atom := Chr (N.eqb c).
Definition chrI (c : N) : atom :=
  Chr (fun x => N.eqb (canonicalize x) (canonicalize c)).

(** A literal run of characters, without and with the [i] flag. *)
Definition str (s : string) : pattern := map chr (lit s).
Definition strI (s : string) : pattern := map chrI (lit s).

(** [s] contains [w], up to the case of ASCII letters. *)
Definition containsI (s : jsstring) (w : string) : Prop :=
  exists pre m post,
    s = pre ++ m ++ post /\ map canonicalize m = map canonicalize (lit w).

Definition oneOf (cs : jsstring) (c : N) : bool := existsb (N.eqb c) cs.
Definition noneOf (cs : jsstring) (c : N) : bool := negb (oneOf cs c).
Definition any (c : N) : bool := negb (isLineTerminator c).
Definition nonSpace (c : N) : bool := negb (isSpace c).






(** Reading one character per class off the front of [s]. *)
Fixpoint takeChars (ps : list (N -> bool)) (s : jsstring) : option jsstring :=
  match ps, s with
  | [], _ => Some s
  | p :: ps', c :: s' => if p c then takeChars ps' s' else None
  | _ :: _, [] => None
  end.

End RegExp.

(** ** Values shared by the loaders *)

Module Host.
Import JS.

(** Errors: those the source creates with [new Error(message)] and
    those raised by the host libraries. *)
Inductive Error : Type :=
| JsError (message : string)
| HostError (code : nat).

(** The state of a promise; [Pending] is a promise that has not
    settled. *)
Inductive Promise (A : Type) : Type :=
| Resolved (a : A)
| Rejected (e : Error)
| Pending.
Arguments Rejected {A} e.
Arguments Pending {A}.

(** What [fetch(url)] resolves to: [response.url] and
    [response.text()]. *)
Record Response : Type := mkResponse {
  response_url : jsstring;
  response_text : jsstring
}.

(** The promise [document.respecIsReady] published by ReSpec. *)
Inductive ReadyPromise : Type :=
| ReadyFulfils
| ReadyRejects (e : Error)
| ReadyNeverSettles.

(** A callback in [respecConfig.postProcess]: one of the page's own,
    or the closure [getDocumentAndGenerator] pushes. *)
Inductive Hook : Type :=
| PageHook (id : nat)
| ResolveRespec.

Record RespecConfig : Type := mkRespecConfig {
  postProcess : option (list Hook)
}.

(** A link of [doc.querySelectorAll('body .head dl a[href]')]. *)
Record Link : Type := mkLink {
  textContent : jsstring;
  href_attr : jsstring          (* link.getAttribute('href') *)
}.

(** A document, through the DOM queries the source makes. *)
Record Document : Type := mkDocument {
  (* querySelector("meta[name='generator']"): its [content] property *)
  metaGenerator : option jsstring;
  (* doc.body.id *)
  bodyId : jsstring;
  (* head.querySelector("script[src*='respec']") is not null *)
  headRespecScript : bool;
  (* doc.getElementById('anolis-references') is not null *)
  anolisReferences : bool;
  (* querySelector('meta[http-equiv="refresh"]'): its
     getAttribute('content'), itself null when the attribute is absent *)
  metaRefresh : option (option jsstring);
  (* querySelectorAll('body .head dl a[href]'), in document order *)
  headLinks : list Link;
  (* doc.baseURI *)
  baseURI : jsstring;
  (* doc.documentElement.textContent *)
  documentText : jsstring
}.

Record Window : Type := mkWindow {
  document : Document;
  respecConfig : option RespecConfig
}.

(** What [new JSDOM(html, {url, ...})] gives once it has fired [load]:
    the window as the load listener sees it, the value of
    [document.respecIsReady] at each run of [resolveWhenReady] (run 0
    is the one of the load listener, run [k] happens [100 * k] ms
    later), and the same window as the callback of the resolved promise
    sees it. *)
Record Rendering : Type := mkRendering {
  onLoad : Window;
  respecIsReady : nat -> option ReadyPromise;
  settled : Window
}.

(** The libraries behind the code.  [baseFetch] takes what the caller
    passed as URL ([None] for undefined); the wrapper [fetch] of the
    source only completes the cache options before it calls it. *)
Record Host : Type := mkHost {
  baseFetch : option jsstring -> Error + Response;
  JSDOM : jsstring -> jsstring -> Error + Rendering;
  URL_resolve : jsstring -> jsstring -> jsstring;
  toLowerCase : jsstring -> jsstring
}.

(** A computation that fetches: the URLs the code passes to [fetch], in
    order, and the promise it returns.  In the loaders these are the
    documents asked for by [loadSpecificationFromUrl]; what JSDOM loads
    on its own while it renders a page (scripts, through
    [resourceLoader.download] and [window.fetch]) belongs to [JSDOM] and
    is not listed. *)
Record Run (A : Type) : Type := mkRun {
  fetched : list (option jsstring);
  outcome : Promise A
}.

Definition ret {A} (a : A) : Run A := mkRun [] (Resolved a).
Definition reject {A} (e : Error) : Run A := mkRun [] (Rejected e).

(** [p.then(f)]. *)
Definition bind {A B} (m : Run A) (f : A -> Run B) : Run B :=
  match outcome m with
  | Resolved a => mkRun (fetched m ++ fetched (f a)) (outcome (f a))
  | Rejected e => mkRun (fetched m) (Rejected e)
  | Pending => mkRun (fetched m) Pending
  end.

Definition fetch (h : Host) (url : option jsstring) : Run Response :=
  match baseFetch h url with
  | inl e => mkRun [url] (Rejected e)
  | inr r => mkRun [url] (Resolved r)
  end.

End Host.

Notation "x <- m ;; f" := (Host.bind m (fun x => f))
  (at level 61, m at next level, right associativity).

(** ** The resource loader: [resourceLoader.download] *)

Module Gate.
Import JS RegExp Host.

(** The parsed URL JSDOM hands to [download]. *)
Record Url : Type := mkUrl {
  href : jsstring;
  path : jsstring;        (* pathname and query string *)
  pathname : jsstring
}.

Record Options : Type := mkOptions {
  referrer : jsstring
}.

Definition respecUrl : jsstring :=
  lit "https://www.w3.org/Tools/respec/respec-w3c-common".

(* /\/respec[\/\-]/i *)
Definition reRespec : pattern := strI "/respec" ++ [Chr (oneOf (lit "/-"))].
(* /\.[^\/\.]+$/ *)
Definition reExtension : pattern :=
  str "." ++ [Greedy (noneOf (lit "/.")) 1; Eos].
(* /annotate_spec/i and the rest of the deny list *)
Definition reAnnotateSpec : pattern := strI "annotate_spec".
Definition reExpanders : pattern := strI "expanders".
Definition reBugAssist : pattern := strI "bug-assist".
Definition reDfn : pattern := strI "dfn".
Definition reSectionLinks : pattern := strI "section-links".
(* /^\/webidl\//i *)
Definition reWebidl : pattern := Bos :: strI "/webidl/".

Definition referrerDirectory (referrer : jsstring) : jsstring :=
  if negb (endsWith referrer (lit "/")) then
    substring referrer 0 (lastIndexOf referrer (lit "/") + 1)
  else referrer.

(** [getUrlToFetch()]; [None] is null. *)
Definition getUrlToFetch (url : Url) (options : Options)
  : option jsstring :=
  let referrer := referrerDirectory (referrer options) in
  if test reRespec (path url) then
    Some respecUrl
  else if test reExtension (path url) &&
          negb (endsWith (path url) (lit ".js")) &&
          negb (endsWith (path url) (lit ".json")) then
    None
  else if eqs (pathname url)
              (lit "/webcomponents/assets/scripts/autolink.js") ||
          (startsWith (href url) referrer &&
           negb (test reAnnotateSpec (pathname url)) &&
           negb (test reExpanders (pathname url)) &&
           negb (test reBugAssist (pathname url)) &&
           negb (test reDfn (pathname url)) &&
           negb (test reSectionLinks (pathname url)) &&
           negb (test reWebidl (pathname url))) then
    Some (href url)
  else None.

(* new RegExp('(define\\(\\s*"profile-w3c-common"\\s*,\\s*\\[[^\\]]+),\\s*"'
              + module + '"') *)
Definition reProfile (module : string) : pattern :=
  str "define(" ++ [Greedy isSpace 0; chr 34] ++
  str "profile-w3c-common" ++
  [chr 34; Greedy isSpace 0; chr 44; Greedy isSpace 0; chr 91;
   Greedy (noneOf (lit "]")) 1; EndGroup;
   chr 44; Greedy isSpace 0; chr 34] ++
  str module ++ [chr 34].
(* /@keyframes \S+? {/ *)
Definition reKeyframes : pattern :=
  str "@keyframes " ++ [Lazy nonSpace 1] ++ str " {".
(* /@supports \(.+?\) {/ *)
Definition reSupports : pattern :=
  str "@supports (" ++ [Lazy any 1] ++ str ") {".
(* /\.innerText=/g *)
Definition reInnerTextSet : pattern := str ".innerText=".
(* /body\.innerText/g *)
Definition reBodyInnerText : pattern := str "body.innerText".

(** The tweaks applied to the code of ReSpec so that it runs in
    JSDOM. *)
Definition tweakRespec (data : jsstring) : jsstring :=
  let data :=
    fold_left (fun data module => replace (reProfile module) Group1 data)
              ["core/highlight"%string] data in
  let data := replace reKeyframes (Text (lit "@media all {")) data in
  let data := replace reSupports (Text (lit "@media all {")) data in
  let data := replaceAll reInnerTextSet (Text (lit ".textContent=")) data in
  let data :=
    replaceAll reBodyInnerText (Text (lit "body.textContent")) data in
  data.

(** How [download] calls its callback: [callback(null, data)] or
    [callback(err)]. *)
Inductive Callback : Type :=
| Data (data : jsstring)
| Failure (e : Error).

(** [download(url, options, callback)]: the URLs fetched and the call
    of the callback. *)
Definition download (h : Host) (url : Url) (options : Options)
  : list (option jsstring) * Callback :=
  match getUrlToFetch url options with
  | None => ([], Data [])
  | Some urlToFetch =>
      if negb (truthy urlToFetch) then ([], Data [])
      else
        ([Some urlToFetch],
         match baseFetch h (Some urlToFetch) with
         | inr response =>
             let data := response_text response in
             if negb (eqs urlToFetch respecUrl) then Data data
             else Data (tweakRespec data)
         | inl err => Failure err
         end)
  end.

(** *** The text the tweaks look for *)

(** A module name between double quotes. *)
Definition quoted (module : string) : jsstring := 34%N :: lit module ++ [34%N].





(** *** The rules of the gate, in words *)

(** The path names the script of ReSpec: "/respec", in any case,
    followed by "/" or "-". *)
Definition matchesBootstrap (p : jsstring) : Prop :=
  exists pre m c post,
    p = pre ++ m ++ c :: post
    /\ map canonicalize m = map canonicalize (lit "/respec")
    /\ (c = 47%N \/ c = 45%N).

(** The path ends with a dot and a non-empty run without dot or
    slash. *)
Definition hasExtension (p : jsstring) : Prop :=
  exists pre ext,
    p = pre ++ 46%N :: ext
    /\ ext <> []
    /\ Forall (fun c => c <> 47%N /\ c <> 46%N) ext.

Definition endsIn (p : jsstring) (w : string) : Prop :=
  exists pre, p = pre ++ lit w.

(** The path name is on the deny list. *)
Definition denied (p : jsstring) : Prop :=
  containsI p "annotate_spec" \/ containsI p "expanders"
  \/ containsI p "bug-assist" \/ containsI p "dfn"
  \/ containsI p "section-links"
  \/ (exists m post,
         p = m ++ post
         /\ map canonicalize m = map canonicalize (lit "/webidl/")).

(** The URL lies under the directory of the referrer. *)
Definition under (url : Url) (options : Options) : Prop :=
  exists rest, href url = referrerDirectory (referrer options) ++ rest.

Definition autolink : jsstring :=
  lit "/webcomponents/assets/scripts/autolink.js".

End Gate.

(** ** Loading a specification *)

Module Loader.
Import JS Host.

(** The object given to [loadSpecificationFromHtml]. *)
Record Spec : Type := mkSpec {
  url : option jsstring;
  html : option jsstring;
  responseUrl : option jsstring
}.

(** [window.respecConfig &&
     window.document.head.querySelector("script[src*='respec']")] *)
Definition usesRespec (window : Window) : bool :=
  match respecConfig window with
  | Some _ => headRespecScript (document window)
  | None => false
  end.

(** The listener of [load].  Each run of [resolveWhenReady] that finds
    no [respecIsReady] on a ReSpec document sets a timer of 100 ms for
    the next run; [polls] is the number of such timers that get to
    fire, and the promise is [Pending] when they are used up. *)
Fixpoint resolveWhenReady (r : Rendering) (polls : nat) (run : nat)
  : Promise Window :=
  match respecIsReady r run with
  | Some ReadyFulfils => Resolved (settled r)
  | Some (ReadyRejects e) => Rejected e
  | Some ReadyNeverSettles => Pending
  | None =>
      if usesRespec (onLoad r) then
        match polls with
        | 0 => Pending
        | S polls' => resolveWhenReady r polls' (S run)
        end
      else Resolved (settled r)
  end.

Section Html.
Variable h : Host.
Variable polls : nat.
(** [target => loadSpecificationFromUrl(target, counter + 1)] *)
Variable loadNext : jsstring -> Run Window.

(** The target of [<meta http-equiv="refresh">] when the source
    follows it. *)
Definition metaRedirect (doc : Document) (url responseUrl : jsstring)
  : option jsstring :=
  match metaRefresh doc with
  | Some content =>
      match nth_error (split (orElse content []) 59) 1 with
      | Some redirectUrl =>
          if truthy redirectUrl then
            let redirectUrl :=
              URL_resolve h (baseURI doc) (trim redirectUrl) in
            if negb (eqs redirectUrl url) &&
               negb (eqs redirectUrl responseUrl)
            then Some redirectUrl
            else None
          else None
      | None => None
      end
  | None => None
  end.

Definition isSinglePageText (text : jsstring) : bool :=
  includes text (lit "single page") ||
  includes text (lit "single file") ||
  includes text (lit "single-page") ||
  includes text (lit "one-page").

(** The loop over [links]; the text content of an element is a
    string, which [|| ''] leaves as it is. *)
Fixpoint followLinks (window : Window) (links : list Link)
         (url responseUrl : jsstring) : Run Window :=
  match links with
  | [] => ret window
  | link :: links' =>
      let text := toLowerCase h (textContent link) in
      if isSinglePageText text then
        let singlePage :=
          URL_resolve h (baseURI (document window)) (href_attr link) in
        if eqs singlePage url || eqs singlePage responseUrl then
          ret window
        else loadNext singlePage
      else followLinks window links' url responseUrl
  end.

(** The executor of [promise]: drop the byte order mark, build the
    JSDOM window and wait for its generation. *)
Definition render (html responseUrl : jsstring) : Promise Window :=
  let html :=
    if match charCodeAt html 0 with
       | Some c => N.eqb c 65279
       | None => false
       end
    then substringFrom html 1
    else html in
  match JSDOM h html responseUrl with
  | inl e => Rejected e
  | inr r => resolveWhenReady r polls 0
  end.

Definition loadHtml (spec : Spec) : Run Window :=
  let url := orElse (url spec) (lit "about:blank") in
  let responseUrl := orElse (responseUrl spec) url in
  let html := orElse (html spec) [] in
  let promise := render html responseUrl in
  window <- mkRun [] promise ;;
  let doc := document window in
  match metaRedirect doc url responseUrl with
  | Some redirectUrl => loadNext redirectUrl
  | None => followLinks window (headLinks doc) url responseUrl
  end.
End Html.

(** The two loaders call each other; the counter grows with each call
    of [loadSpecificationFromUrl] and stops the recursion at 5.  The
    body of [loadSpecificationFromHtml] is [loadHtml], given what the
    next call of [loadSpecificationFromUrl] does. *)
Equations loadSpecificationFromUrl (h : Host) (polls : nat)
          (url : option jsstring) (counter : option nat)
  : Run Window by wf (5 - orZero counter) lt :=
  loadSpecificationFromUrl h polls url counter
    with le_lt_dec 5 (orZero counter) => {
    | left _ => reject (JsError "Infinite loop detected")
    | right _ =>
        spec <- (response <- fetch h url ;;
                 ret (mkSpec url (Some (response_text response))
                             (Some (response_url response)))) ;;
        loadHtml h polls
          (fun target =>
             loadSpecificationFromUrl h polls (Some target)
                                      (Some (orZero counter + 1)))
          spec }.
Next Obligation.
  change (5 - (orZero counter + 1) < 5 - orZero counter). lia.
Qed.

Definition loadSpecificationFromHtml (h : Host) (polls : nat)
           (spec : Spec) (counter : option nat) : Run Window :=
  let counter := orZero counter in
  loadHtml h polls
    (fun target =>
       loadSpecificationFromUrl h polls (Some target) (Some (counter + 1)))
    spec.

(** The argument of [loadSpecification]: a URL or an object. *)
Inductive SpecArg : Type :=
| OfUrl (u : jsstring)
| OfSpec (spec : Spec).

Definition loadSpecification (h : Host) (polls : nat) (spec : SpecArg)
  : Run Window :=
  let spec :=
    match spec with
    | OfUrl u => mkSpec (Some u) None None
    | OfSpec spec => spec
    end in
  if truthy' (html spec) then loadSpecificationFromHtml h polls spec None
  else loadSpecificationFromUrl h polls (url spec) None.

End Loader.

(** ** Naming the generator: [getDocumentAndGenerator] *)

Module Detector.
Import JS RegExp Host.

(** The object the promise resolves to; [generator] is [None] when the
    object has no such property. *)
Record Result : Type := mkResult {
  doc : Document;
  generator : option jsstring
}.

(* /bikeshed/i *)
Definition reBikeshed : pattern := strI "bikeshed".

Definition timeoutError : Error :=
  JsError
    "Specification apparently uses ReSpec but document generation timed out".

(** The returned promise together with what the call leaves behind:
    the window, whose [respecConfig.postProcess] may have grown, and
    the timer set with [setTimeout], as its delay in ms. *)
Record Detection : Type := mkDetection {
  window : Window;
  promise : Promise Result;
  timeout : option N
}.

(** [if (!postProcess) postProcess = []; postProcess.push(hook)] *)
Definition pushPostProcess (window : Window) (hook : Hook) : Window :=
  match respecConfig window with
  | Some config =>
      let hooks :=
        match postProcess config with
        | Some hooks => hooks
        | None => []
        end in
      mkWindow (document window)
               (Some (mkRespecConfig (Some (hooks ++ [hook]))))
  | None => window
  end.

Definition getDocumentAndGenerator (window : Window) : Detection :=
  let doc := document window in
  let generator := metaGenerator doc in
  if match generator with
     | Some content => test reBikeshed content
     | None => false
     end
  then
    mkDetection window (Resolved (mkResult doc (Some (lit "bikeshed")))) None
  else if eqs (bodyId doc) (lit "respecDocument") then
    mkDetection window (Resolved (mkResult doc (Some (lit "respec")))) None
  else if match respecConfig window with
          | Some _ => headRespecScript doc
          | None => false
          end
  then
    mkDetection (pushPostProcess window ResolveRespec) Pending (Some 30000%N)
  else if anolisReferences doc then
    mkDetection window (Resolved (mkResult doc (Some (lit "anolis")))) None
  else
    mkDetection window (Resolved (mkResult doc None)) None.

(** A promise settles once: [resolve] and [reject] do nothing to a
    settled promise. *)
Definition settle {A} (p v : Promise A) : Promise A :=
  match p with
  | Pending => v
  | _ => p
  end.

(** What happens to a detection afterwards: ReSpec runs the hooks of
    [respecConfig.postProcess], or the timer fires. *)
Inductive Event : Type :=
| PostProcess
| Timer.

Definition runHook (d : Detection) (hook : Hook) : Detection :=
  match hook with
  | ResolveRespec =>
      (* if (timeout) clearTimeout(timeout);
         resolve({doc, generator: 'respec'}) *)
      mkDetection (window d)
        (settle (promise d)
           (Resolved (mkResult (document (window d)) (Some (lit "respec")))))
        None
  | PageHook _ => d
  end.

Definition hooks (window : Window) : list Hook :=
  match respecConfig window with
  | Some config =>
      match postProcess config with
      | Some hooks => hooks
      | None => []
      end
  | None => []
  end.

Definition step (d : Detection) (ev : Event) : Detection :=
  match ev with
  | PostProcess => fold_left runHook (hooks (window d)) d
  | Timer =>
      match timeout d with
      | Some _ =>
          mkDetection (window d)
                      (settle (promise d) (Rejected timeoutError)) None
      | None => d
      end
  end.

(** The events of a detection on a clock in ms that starts at the
    call: ReSpec runs the hooks at [hookAt] (never when [None]), the
    timer is due after its delay.  A run of the hooks due at the very
    instant of the timer comes after it. *)
Definition timeline (d : Detection) (hookAt : option N)
  : list (N * Event) :=
  match hookAt, timeout d with
  | Some t, Some delay =>
      if N.ltb t delay then [(t, PostProcess); (delay, Timer)]
      else [(delay, Timer); (t, PostProcess)]
  | Some t, None => [(t, PostProcess)]
  | None, Some delay => [(delay, Timer)]
  | None, None => []
  end.

(** The detection at time [now]. *)
Definition at_time (d : Detection) (hookAt : option N) (now : N)
  : Detection :=
  fold_left step
    (map snd (filter (fun e => N.leb (fst e) now) (timeline d hookAt))) d.

End Detector.

(** ** A small web for the examples *)

Module Fixture.
Import JS Host Loader.

Definition lower (c : N) : N :=
  if (N.leb 65 c && N.leb c 90)%bool then (c + 32)%N else c.

(** [toLowerCase] on ASCII text. *)
Definition asciiLower (s : jsstring) : jsstring := map lower s.

(** [URL.resolve] on the targets of the examples, which are absolute
    or empty. *)
Definition resolveAbsolute (base rel : jsstring) : jsstring :=
  if truthy rel then rel else base.

Definition blank (base text : jsstring) : Document :=
  mkDocument None [] false false None [] base text.

(** A page that no script changes. *)
Definition static (doc : Document) : Rendering :=
  mkRendering (mkWindow doc None) (fun _ => None) (mkWindow doc None).

Definition refreshPrefix : jsstring :=
  lit "<meta http-equiv='refresh' content='".

Definition refreshTo (target : string) : jsstring :=
  refreshPrefix ++ lit "0; " ++ lit target ++ lit "'>".

(** Two links to a single-page version: the first leads elsewhere, the
    second to the page itself. *)
Definition twoLinksMarkup : jsstring :=
  lit "<body><div class='head'><dl><dd><a href='http://example.org/one.html'>single page</a> <a href='http://example.org/multi/'>Single Page</a></dd></dl></div></body>".

Definition twoLinks (url : jsstring) : Document :=
  mkDocument None [] false false None
    [mkLink (lit "single page") (lit "http://example.org/one.html");
     mkLink (lit "Single Page") (lit "http://example.org/multi/")]
    url (lit "single page Single Page").

(** A refresh without target, in a document with a base element. *)
Definition emptyRefreshMarkup : jsstring :=
  lit "<base href='http://example.org/other/'><meta http-equiv='refresh' content='0;'>".

Definition emptyRefresh : Document :=
  mkDocument None [] false false (Some (Some (lit "0;"))) []
             (lit "http://example.org/other/") [].

(** A ReSpec source whose script never publishes
    [document.respecIsReady]. *)
Definition stuckRespecMarkup : jsstring :=
  lit "<head><script src='respec-w3c-common.js'></script><script>var respecConfig = {};</script></head>".

Definition stuckRespec (url : jsstring) : Rendering :=
  let w :=
    mkWindow (mkDocument None [] true false None [] url [])
             (Some (mkRespecConfig None)) in
  mkRendering w (fun _ => None) w.

Definition paragraph : jsstring := lit "<p>Hi</p>".

(** The parser of the examples.  It keeps a byte order mark it is
    given as text of the document. *)
Definition jsdom (html url : jsstring) : Error + Rendering :=
  if startsWith html refreshPrefix then
    let content :=
      removelast (removelast (skipn (length refreshPrefix) html)) in
    inr (static (mkDocument None [] false false (Some (Some content)) []
                            url []))
  else if eqs html twoLinksMarkup then inr (static (twoLinks url))
  else if eqs html emptyRefreshMarkup then inr (static emptyRefresh)
  else if eqs html stuckRespecMarkup then inr (stuckRespec url)
  else if eqs html paragraph then inr (static (blank url (lit "Hi")))
  else if eqs html (65279%N :: paragraph) then
    inr (static (blank url (65279%N :: lit "Hi")))
  else inr (static (blank url [])).

Definition site : list (jsstring * jsstring) :=
  [ (lit "http://example.org/a", refreshTo "http://example.org/b");
    (lit "http://example.org/b", refreshTo "http://example.org/c");
    (lit "http://example.org/c", refreshTo "http://example.org/d");
    (lit "http://example.org/d", paragraph);
    (lit "http://example.org/0", refreshTo "http://example.org/1");
    (lit "http://example.org/1", refreshTo "http://example.org/2");
    (lit "http://example.org/2", refreshTo "http://example.org/3");
    (lit "http://example.org/3", refreshTo "http://example.org/4");
    (lit "http://example.org/4", refreshTo "http://example.org/5");
    (lit "http://example.org/5", refreshTo "http://example.org/6");
    (lit "http://example.org/6", paragraph);
    (lit "http://example.org/multi/", twoLinksMarkup);
    (lit "http://example.org/one.html", paragraph);
    (lit "https://www.w3.org/Tools/respec/respec-w3c-common",
     lit "x.innerText=1;") ].

Definition fetchSite (url : option jsstring) : Error + Response :=
  match url with
  | Some u =>
      match find (fun p => eqs (fst p) u) site with
      | Some (_, text) => inr (mkResponse u text)
      | None => inl (HostError 404)
      end
  | None => inl (HostError 400)
  end.

Definition host : Host :=
  mkHost fetchSite jsdom resolveAbsolute asciiLower.

End Fixture.

(** ** Chains of redirections *)

Module Chain.
Import JS Host Loader.

Section Hops.
Variable h : Host.
Variable polls : nat.

(** Fetching [u] as [loadSpecificationFromUrl] does and rendering the
    answer: the URL, the response URL and the window the callback of
    [loadSpecificationFromHtml] works on. *)
Definition rendered (u : jsstring) : option (jsstring * jsstring * Window) :=
  match baseFetch h (Some u) with
  | inr response =>
      let url := orElse (Some u) (lit "about:blank") in
      let responseUrl := orElse (Some (response_url response)) url in
      match render h polls (orElse (Some (response_text response)) [])
                   responseUrl with
      | Resolved window => Some (url, responseUrl, window)
      | _ => None
      end
  | inl _ => None
  end.

(** The page at [a] is a meta refresh that leads forward to [b]. *)
Definition hop (a b : jsstring) : bool :=
  match rendered a with
  | Some (url, responseUrl, window) =>
      match metaRedirect h (document window) url responseUrl with
      | Some target => eqs target b
      | None => false
      end
  | None => false
  end.

(** The page at [d] has no further redirect: no meta refresh and no
    link to a single-page version. *)
Definition final (d : jsstring) : option Window :=
  match rendered d with
  | Some (_, _, window) =>
      match metaRefresh (document window) with
      | None =>
          if existsb
               (fun l => isSinglePageText (toLowerCase h (textContent l)))
               (headLinks (document window))
          then None
          else Some window
      | Some _ => None
      end
  | None => None
  end.

(** [a] followed by [rest] is a chain of meta refreshes. *)
Fixpoint chain (a : jsstring) (rest : list jsstring) : bool :=
  match rest with
  | [] => true
  | b :: rest' => hop a b && chain b rest'
  end.
End Hops.

(** The same run after the fetches [l]. *)
Definition after {A} (l : list jsstring) (r : Run A) : Run A :=
  mkRun (map Some l ++ fetched r) (outcome r).

End Chain.

(** ** The options of [fetch] *)

Module Options.
Import JS.

(** The values an option or a configuration parameter may hold. *)
Inductive Value : Type :=
| VUndefined
| VNull
| VBool (b : bool)
| VNumber (n : Z)
| VString (s : jsstring)
| VObject (id : nat).

Definition truthyValue (v : Value) : bool :=
  match v with
  | VUndefined | VNull => false
  | VBool b => b
  | VNumber n => negb (Z.eqb n 0)
  | VString s => truthy s
  | VObject _ => true
  end.

(** An object through its own properties. *)
Definition object := string -> option Value.

Definition empty : object := fun _ => None.

(** [o[k]] *)
Definition get (o : object) (k : string) : Value :=
  match o k with
  | Some v => v
  | None => VUndefined
  end.

(** [o[k] = v] *)
Definition set (o : object) (k : string) (v : Value) : object :=
  fun k' => if String.eqb k k' then Some v else o k'.

(** [Object.prototype.hasOwnProperty.call(o, k)].  The source writes
    [options.hasOwnProperty(k)], which is this test as long as the
    options have no own property of the name [hasOwnProperty]: such a
    property would be called in place of the method. *)
Definition hasOwnProperty (o : object) (k : string) : bool :=
  match o k with
  | Some _ => true
  | None => false
  end.


(** The configuration: the content of [config.json], or [{}] when
    requiring it throws. *)
Definition readConfig (required : Host.Error + object) : object :=
  match required with
  | inr config => config
  | inl _ => empty
  end.

Definition params : list string :=
  ["cacheFolder"; "resetCache"; "cacheRefresh"; "logToConsole"]%string.

(** The body of the [forEach], where [options.hasOwnProperty] is the
    method of [Object.prototype]. *)
Definition applyParam (config options : object) (param : string) : object :=
  let fetchParam :=
    if String.eqb param "cacheRefresh" then "refresh"%string else param in
  if truthyValue (get config param) &&
     negb (hasOwnProperty options fetchParam)
  then set options fetchParam (get config param)
  else options.

(** The options [fetch(url, options)] hands to [baseFetch], where
    [options.hasOwnProperty] is the method of [Object.prototype]; [None]
    is a call without options. *)
Definition fetchOptions (config : object) (options : option object)
  : object :=
  let options :=
    match options with
    | Some options => options
    | None => empty
    end in
  let options := fold_left (applyParam config) params options in
  if negb (truthyValue (get options "refresh")) then
    set options "refresh" (VString (lit "once"))
  else options.

(** The body of the [forEach] as the source evaluates it:
    [config[param] && !options.hasOwnProperty(fetchParam)] looks the
    method up on the options themselves, and only when [config[param]]
    is truthy.  With an own property of that name the call does not
    reach the method: what happens then (a TypeError, or the code of the
    caller) is left open, as [None]. *)
Definition callParam (config options : object) (param : string)
  : option object :=
  let fetchParam :=
    if String.eqb param "cacheRefresh" then "refresh"%string else param in
  if truthyValue (get config param) then
    match options "hasOwnProperty"%string with
    | Some _ => None
    | None =>
        Some (if negb (hasOwnProperty options fetchParam)
              then set options fetchParam (get config param)
              else options)
    end
  else Some options.

(** The options a call [fetch(url, options)] hands to [baseFetch], when
    it gets there. *)
Definition fetchCall (config : object) (options : option object)
  : option object :=
  let options :=
    match options with
    | Some options => options
    | None => empty
    end in
  match fold_left
          (fun acc param =>
             match acc with
             | Some options => callParam config options param
             | None => None
             end)
          params (Some options)
  with
  | Some options =>
      Some (if negb (truthyValue (get options "refresh")) then
              set options "refresh" (VString (lit "once"))
            else options)
  | None => None
  end.

End Options.

(** ** The shims installed on the window *)

Module Shims.
Import JS Host.

(** [window.fetch]: [anchor] is what setting [a.href = url] on a new
    anchor of the document and reading [a.href] back gives. *)
Definition windowFetch (h : Host) (anchor : jsstring -> jsstring)
           (url : jsstring) : Run Response :=
  let url :=
    if negb (startsWith url (lit "http:")) ||
       negb (startsWith url (lit "https:"))
    then anchor url
    else url in
  fetch h (Some url).

(** A node as [Element.prototype.closest] sees it: its [nodeType] and
    whether [matches(selector)] holds of it. *)
Record Node : Type := mkNode {
  nodeId : nat;
  nodeType : N;
  matches : bool
}.

(** The loop of [closest] from the second turn on: [up] lists what
    [el.parentElement || el.parentNode] gives, turn after turn, until it
    is null. *)
Fixpoint climb (up : list Node) : option Node :=
  match up with
  | [] => None
  | el :: up' =>
      if N.eqb (nodeType el) 1 then
        if matches el then Some el else climb up'
      else None
  end.

(** [this.closest(selector)]; [contained] is
    [this.ownerDocument.documentElement.contains(this)]. *)
Definition closest (this : Node) (up : list Node) (contained : bool)
  : option Node :=
  if negb contained then None
  else if matches this then Some this
  else climb up.

End Shims.

(** ** [urlOrDom] *)

Module Api.
Import JS Host Loader.

(** The argument of [urlOrDom]: a string or anything else, a window in
    the callers. *)
Inductive Input : Type :=
| InString (u : jsstring)
| InWindow (w : Window).

(** The error of [loadSpecificationFromUrl] at the bound of the
    counter. *)
Definition loopError : Error := JsError "Infinite loop detected".

Definition urlOrDom (h : Host) (polls : nat) (input : Input) : Run Window :=
  match input with
  | InString u => loadSpecification h polls (OfUrl u)
  | InWindow w => ret w
  end.

End Api.

(** ** A ReSpec source that takes time *)

Module Generation.
Import JS Host.

(** A ReSpec source whose [document.respecIsReady] is there from the
    second poll on, 200 ms after [load], and fulfils. *)
Definition rendering (url : jsstring) : Rendering :=
  mkRendering
    (mkWindow (mkDocument None [] true false None [] url [])
              (Some (mkRespecConfig None)))
    (fun run => if 2 <=? run then Some ReadyFulfils else None)
    (mkWindow (mkDocument None (lit "respecDocument") true false None []
                          url (lit "Abstract"))
              (Some (mkRespecConfig None))).

(** Every URL answers with that source. *)
Definition host : Host :=
  mkHost
    (fun url =>
       match url with
       | Some u => inr (mkResponse u Fixture.stuckRespecMarkup)
       | None => inl (HostError 400)
       end)
    (fun _ url => inr (rendering url))
    Fixture.resolveAbsolute Fixture.asciiLower.

End Generation.

(** * Properties *)

Unset Implicit Arguments.

Import JS RegExp Host.

(** ** Strings *)

Lemma eqs_eq (a b : jsstring) : eqs a b = true <-> a = b.
Proof.
  revert b; induction a as [|x a IH]; intros [|y b]; simpl;
    try (split; [discriminate | discriminate]); try tauto.
  rewrite andb_true_iff, N.eqb_eq, IH.
  split; [intros [-> ->]; reflexivity | intros H; inversion H; auto].
Qed.


Lemma eqs_neq (a b : jsstring) : eqs a b = false <-> a <> b.
Proof.
  split.
  - intros H E. apply eqs_eq in E. congruence.
  - intros H. destruct (eqs a b) eqn:E; [apply eqs_eq in E; contradiction | reflexivity].
Qed.

Lemma orElse_truthy (v : option jsstring) (d : jsstring) :
  truthy d = true -> truthy (orElse v d) = true.
Proof.
  intros Hd. destruct v as [s|]; simpl; [destruct (truthy s) eqn:E|]; auto.
Qed.

Lemma orElse_idem (s d : jsstring) : truthy s = true -> orElse (Some s) d = s.
Proof. intros H; simpl; rewrite H; reflexivity. Qed.

(** ** Runs *)

Lemma run_eta {A} (r : Run A) : mkRun (fetched r) (outcome r) = r.
Proof. destruct r; reflexivity. Qed.

Lemma bind_resolved {A B} (a : A) (f : A -> Run B) :
  (x <- mkRun [] (Resolved a) ;; f x) = f a.
Proof. unfold bind; simpl. apply run_eta. Qed.

Lemma bind_rejected {A B} (e : Error) (f : A -> Run B) :
  (x <- mkRun [] (Rejected e) ;; f x) = mkRun [] (Rejected e).
Proof. reflexivity. Qed.

Lemma bind_pending {A B} (f : A -> Run B) :
  (x <- mkRun [] Pending ;; f x) = mkRun [] Pending.
Proof. reflexivity. Qed.

(** ** The two loaders *)

Import Loader.

Lemma loadSpecificationFromUrl_eq h polls url counter :
  loadSpecificationFromUrl h polls url counter =
  if 5 <=? orZero counter then reject (JsError "Infinite loop detected")
  else
    spec <- (response <- fetch h url ;;
             ret (mkSpec url (Some (response_text response))
                         (Some (response_url response)))) ;;
    loadSpecificationFromHtml h polls spec counter.
Proof.
  simp loadSpecificationFromUrl.
  destruct (le_lt_dec 5 (orZero counter)) as [Hle|Hlt];
    simp loadSpecificationFromUrl.
  - apply Nat.leb_le in Hle. rewrite Hle. reflexivity.
  - apply Nat.leb_gt in Hlt. rewrite Hlt. reflexivity.
Qed.

Import Chain.

Lemma after_nil {A} (r : Run A) : after [] r = r.
Proof. apply run_eta. Qed.

Lemma after_after {A} (l l' : list jsstring) (r : Run A) :
  after l (after l' r) = after (l ++ l') r.
Proof. unfold after; simpl. rewrite map_app, app_assoc. reflexivity. Qed.

(** A link loop that finds no single-page text returns the window. *)
Lemma followLinks_none h loadNext window links url responseUrl :
  existsb (fun l => isSinglePageText (toLowerCase h (textContent l))) links
  = false ->
  followLinks h loadNext window links url responseUrl = ret window.
Proof.
  induction links as [|l links IH]; simpl; [reflexivity|].
  intros H. apply orb_false_iff in H as [Hl Hrest].
  rewrite Hl. apply IH, Hrest.
Qed.

Lemma follow_hop h polls a b counter :
  hop h polls a b = true ->
  orZero counter < 5 ->
  loadSpecificationFromUrl h polls (Some a) counter =
  after [a] (loadSpecificationFromUrl h polls (Some b)
                                      (Some (orZero counter + 1))).
Proof.
  intros Hhop Hlt.
  rewrite loadSpecificationFromUrl_eq.
  apply Nat.leb_gt in Hlt. rewrite Hlt.
  unfold hop, rendered in Hhop. unfold fetch.
  destruct (baseFetch h (Some a)) as [e|response]; [discriminate|].
  unfold loadSpecificationFromHtml, loadHtml, bind at 1 2; simpl.
  destruct (render h polls _ _) as [window| |]; try discriminate.
  rewrite bind_resolved.
  destruct (metaRedirect h (document window) _ _) as [target|];
    [|discriminate].
  apply eqs_eq in Hhop. subst target. reflexivity.
Qed.

Lemma last_cons {A} (rest : list A) : forall a b,
  last (b :: rest) a = last rest b.
Proof.
  induction rest as [|j rest IH]; intros a b; [reflexivity|].
  change (last (b :: j :: rest) a) with (last (j :: rest) a).
  rewrite (IH a j), (IH b j). reflexivity.
Qed.

Lemma follow_chain h polls rest : forall a c,
  chain h polls a rest = true ->
  c + length rest <= 5 ->
  loadSpecificationFromUrl h polls (Some a) (Some c) =
  after (removelast (a :: rest))
        (loadSpecificationFromUrl h polls (Some (last rest a))
                                  (Some (c + length rest))).
Proof.
  induction rest as [|b rest IH]; intros a c Hchain Hlen.
  - simpl. rewrite Nat.add_0_r, after_nil. reflexivity.
  - simpl in Hchain. apply andb_true_iff in Hchain as [Hhop Hrest].
    simpl in Hlen.
    rewrite (follow_hop _ _ _ _ (Some c) Hhop) by (simpl; lia).
    simpl orZero. rewrite (IH b (c + 1) Hrest) by lia.
    rewrite after_after.
    replace (c + 1 + length rest) with (c + length (b :: rest))
      by (simpl; lia).
    rewrite (last_cons rest a b). reflexivity.
Qed.

Lemma land_final h polls d w counter :
  final h polls d = Some w ->
  orZero counter < 5 ->
  loadSpecificationFromUrl h polls (Some d) counter =
  mkRun [Some d] (Resolved w).
Proof.
  intros Hfinal Hlt.
  rewrite loadSpecificationFromUrl_eq.
  apply Nat.leb_gt in Hlt. rewrite Hlt.
  unfold final, rendered in Hfinal. unfold fetch.
  destruct (baseFetch h (Some d)) as [e|response]; [discriminate|].
  unfold loadSpecificationFromHtml, loadHtml, bind at 1 2; simpl.
  destruct (render h polls _ _) as [window| |]; try discriminate.
  rewrite bind_resolved.
  unfold metaRedirect.
  destruct (metaRefresh (document window)); [discriminate|].
  destruct (existsb _ _) eqn:Hlinks; [discriminate|].
  injection Hfinal as <-.
  rewrite followLinks_none by exact Hlinks. reflexivity.
Qed.

(** C2.  A resolution by URL entered with a counter of 5 or more rejects
    with the infinite loop error and fetches nothing.  A chain of three
    meta refreshes a -> b -> c -> d, where d redirects no further,
    resolves to the window of d: a, b, c and d are fetched in this order
    and d is entered with counter 3.  A chain of six meta refreshes
    rejects with the infinite loop error. *)
Theorem redirect_chain_bound (h : Host) (polls : nat) :
  (forall url counter,
      5 <= counter ->
      loadSpecificationFromUrl h polls url (Some counter) =
      mkRun [] (Rejected (JsError "Infinite loop detected")))
  /\
  (forall a b c d w,
      chain h polls a [b; c; d] = true ->
      final h polls d = Some w ->
      loadSpecificationFromUrl h polls (Some a) None =
      after [a; b; c] (loadSpecificationFromUrl h polls (Some d) (Some 3))
      /\ loadSpecificationFromUrl h polls (Some d) (Some 3) =
         mkRun [Some d] (Resolved w)
      /\ loadSpecificationFromUrl h polls (Some a) None =
         mkRun [Some a; Some b; Some c; Some d] (Resolved w))
  /\
  (forall a0 a1 a2 a3 a4 a5 a6,
      chain h polls a0 [a1; a2; a3; a4; a5; a6] = true ->
      loadSpecificationFromUrl h polls (Some a0) None =
      mkRun [Some a0; Some a1; Some a2; Some a3; Some a4]
            (Rejected (JsError "Infinite loop detected"))).
Proof.
  assert (Hloop : forall url counter,
             5 <= counter ->
             loadSpecificationFromUrl h polls url (Some counter) =
             mkRun [] (Rejected (JsError "Infinite loop detected"))).
  { intros url counter Hle. rewrite loadSpecificationFromUrl_eq.
    apply Nat.leb_le in Hle. simpl orZero. rewrite Hle. reflexivity. }
  split; [exact Hloop|split].
  - intros a b c d w Hchain Hfinal.
    assert (Hstart : loadSpecificationFromUrl h polls (Some a) None =
                     loadSpecificationFromUrl h polls (Some a) (Some 0)).
    { rewrite !loadSpecificationFromUrl_eq. reflexivity. }
    pose proof (follow_chain h polls [b; c; d] a 0 Hchain) as Hfollow.
    simpl in Hfollow. specialize (Hfollow ltac:(lia)).
    pose proof (land_final h polls d w (Some 3) Hfinal ltac:(simpl; lia))
      as Hland.
    rewrite Hstart, Hfollow. repeat split.
    + exact Hland.
    + rewrite Hland. reflexivity.
  - intros a0 a1 a2 a3 a4 a5 a6 Hchain.
    assert (Hstart : loadSpecificationFromUrl h polls (Some a0) None =
                     loadSpecificationFromUrl h polls (Some a0) (Some 0)).
    { rewrite !loadSpecificationFromUrl_eq. reflexivity. }
    assert (Hfive : chain h polls a0 [a1; a2; a3; a4; a5] = true).
    { simpl in *. repeat (apply andb_true_iff in Hchain as [? Hchain]).
      repeat (apply andb_true_iff; split); auto. }
    pose proof (follow_chain h polls [a1; a2; a3; a4; a5] a0 0 Hfive)
      as Hfollow.
    simpl in Hfollow. specialize (Hfollow ltac:(lia)).
    rewrite Hstart, Hfollow, Hloop by lia. reflexivity.
Qed.

Lemma redirect_chain_bound_witness :
  loadSpecificationFromUrl Fixture.host 0 (Some (lit "http://example.org/a"))
                           (Some 7) =
  mkRun [] (Rejected (JsError "Infinite loop detected"))
  /\ loadSpecificationFromUrl Fixture.host 0
       (Some (lit "http://example.org/a")) None =
     mkRun [Some (lit "http://example.org/a"); Some (lit "http://example.org/b");
            Some (lit "http://example.org/c"); Some (lit "http://example.org/d")]
           (Resolved (mkWindow (Fixture.blank (lit "http://example.org/d")
                                              (lit "Hi")) None))
  /\ loadSpecificationFromUrl Fixture.host 0
       (Some (lit "http://example.org/0")) None =
     mkRun [Some (lit "http://example.org/0"); Some (lit "http://example.org/1");
            Some (lit "http://example.org/2"); Some (lit "http://example.org/3");
            Some (lit "http://example.org/4")]
           (Rejected (JsError "Infinite loop detected")).
Proof.
  destruct (redirect_chain_bound Fixture.host 0) as (Hloop & Hthree & Hsix).
  split; [|split].
  - apply Hloop. lia.
  - apply (Hthree (lit "http://example.org/a") (lit "http://example.org/b")
                  (lit "http://example.org/c") (lit "http://example.org/d")).
    + vm_compute. reflexivity.
    + vm_compute. reflexivity.
  - apply (Hsix (lit "http://example.org/0") (lit "http://example.org/1")
                (lit "http://example.org/2") (lit "http://example.org/3")
                (lit "http://example.org/4") (lit "http://example.org/5")
                (lit "http://example.org/6")).
    vm_compute. reflexivity.
Defined.

(** ** What [loadSpecificationFromHtml] follows *)

Lemma metaRedirect_differs h doc url responseUrl target :
  metaRedirect h doc url responseUrl = Some target ->
  target <> url /\ target <> responseUrl.
Proof.
  unfold metaRedirect.
  destruct (metaRefresh doc) as [content|]; [|discriminate].
  destruct (nth_error _ 1) as [field|]; [|discriminate].
  destruct (truthy field); [|discriminate].
  destruct (negb (eqs _ url) && negb (eqs _ responseUrl)) eqn:E;
    [|discriminate].
  intros [= <-].
  apply andb_true_iff in E as [E1 E2].
  apply negb_true_iff in E1, E2.
  split; apply eqs_neq; assumption.
Qed.

(** The second field of the content of a meta refresh, when the source
    takes it as a redirect target. *)
Lemma metaRedirect_field h doc url responseUrl content field :
  metaRefresh doc = Some content ->
  nth_error (split (orElse content []) 59) 1 = Some field ->
  field <> [] ->
  metaRedirect h doc url responseUrl =
  let target := URL_resolve h (baseURI doc) (trim field) in
  if negb (eqs target url) && negb (eqs target responseUrl)
  then Some target else None.
Proof.
  intros Hmeta Hfield Hne. unfold metaRedirect.
  rewrite Hmeta, Hfield.
  destruct field; [contradiction|reflexivity].
Qed.

Lemma metaRedirect_no_field h doc url responseUrl content :
  metaRefresh doc = Some content ->
  nth_error (split (orElse content []) 59) 1 = None \/
  nth_error (split (orElse content []) 59) 1 = Some [] ->
  metaRedirect h doc url responseUrl = None.
Proof.
  intros Hmeta [Hfield|Hfield]; unfold metaRedirect;
    rewrite Hmeta, Hfield; reflexivity.
Qed.

(** The link loop stops at the first link with a single-page text. *)
Lemma followLinks_first h loadNext window pre link post url responseUrl :
  existsb (fun l => isSinglePageText (toLowerCase h (textContent l))) pre
  = false ->
  isSinglePageText (toLowerCase h (textContent link)) = true ->
  followLinks h loadNext window (pre ++ link :: post) url responseUrl =
  let singlePage :=
    URL_resolve h (baseURI (document window)) (href_attr link) in
  if eqs singlePage url || eqs singlePage responseUrl then ret window
  else loadNext singlePage.
Proof.
  intros Hpre Hlink.
  induction pre as [|l pre IH]; simpl.
  - rewrite Hlink. reflexivity.
  - simpl in Hpre. apply orb_false_iff in Hpre as [Hl Hpre].
    rewrite Hl. apply IH, Hpre.
Qed.

Lemma followLinks_ext h loadNext loadNext' window links url responseUrl :
  (forall t, t <> url -> t <> responseUrl -> loadNext t = loadNext' t) ->
  followLinks h loadNext window links url responseUrl =
  followLinks h loadNext' window links url responseUrl.
Proof.
  intros Hagree. induction links as [|l links IH]; simpl; [reflexivity|].
  destruct (isSinglePageText _); [|exact IH].
  destruct (eqs _ url) eqn:E1; [reflexivity|].
  destruct (eqs _ responseUrl) eqn:E2; [reflexivity|].
  simpl. apply Hagree; apply eqs_neq; assumption.
Qed.

(** Neither kind of redirect follows a target equal to the URL or to the
    response URL of the document: the result does not depend on what
    loading them would give. *)
Lemma loadHtml_ext h polls loadNext loadNext' spec :
  (forall t,
      t <> orElse (url spec) (lit "about:blank") ->
      t <> orElse (responseUrl spec) (orElse (url spec) (lit "about:blank")) ->
      loadNext t = loadNext' t) ->
  loadHtml h polls loadNext spec = loadHtml h polls loadNext' spec.
Proof.
  intros Hagree. unfold loadHtml.
  destruct (render h polls _ _) as [window|e|]; try reflexivity.
  rewrite !bind_resolved.
  destruct (metaRedirect h (document window) _ _) as [target|] eqn:Hmeta.
  - apply metaRedirect_differs in Hmeta as [H1 H2]. apply Hagree; assumption.
  - apply followLinks_ext, Hagree.
Qed.

Lemma loadHtml_rendered h polls loadNext spec window :
  render h polls (orElse (html spec) [])
         (orElse (responseUrl spec) (orElse (url spec) (lit "about:blank")))
  = Resolved window ->
  loadHtml h polls loadNext spec =
  match metaRedirect h (document window)
          (orElse (url spec) (lit "about:blank"))
          (orElse (responseUrl spec) (orElse (url spec) (lit "about:blank")))
  with
  | Some redirectUrl => loadNext redirectUrl
  | None =>
      followLinks h loadNext window (headLinks (document window))
        (orElse (url spec) (lit "about:blank"))
        (orElse (responseUrl spec) (orElse (url spec) (lit "about:blank")))
  end.
Proof.
  intros Hrender. unfold loadHtml. rewrite Hrender, bind_resolved.
  reflexivity.
Qed.

(** C4, as amended.  In a rendered document with a meta refresh element
    whose content has a non-empty second field between semicolons, the
    redirect target is that field, trimmed and resolved against the base
    URI of the document; the resolution goes on with
    [loadSpecificationFromUrl] on that target and the counter plus one
    when the target differs from both the URL and the response URL, and
    never loads that target when it equals one of them.  When the second
    field is absent or empty the element redirects nowhere and the links
    decide. *)
Theorem meta_refresh_redirect (h : Host) (polls : nat) (spec : Spec)
        (counter : option nat) (window : Window) (content : option jsstring) :
  let url := orElse (url spec) (lit "about:blank") in
  let responseUrl := orElse (responseUrl spec) url in
  render h polls (orElse (html spec) []) responseUrl = Resolved window ->
  metaRefresh (document window) = Some content ->
  (forall field,
      nth_error (split (orElse content []) 59) 1 = Some field ->
      field <> [] ->
      let target := URL_resolve h (baseURI (document window)) (trim field) in
      (target <> url /\ target <> responseUrl ->
       loadSpecificationFromHtml h polls spec counter =
       loadSpecificationFromUrl h polls (Some target)
                                (Some (orZero counter + 1)))
      /\
      (target = url \/ target = responseUrl ->
       forall loadNext loadNext',
         (forall t, t <> target -> loadNext t = loadNext' t) ->
         loadHtml h polls loadNext spec = loadHtml h polls loadNext' spec))
  /\
  (nth_error (split (orElse content []) 59) 1 = None \/
   nth_error (split (orElse content []) 59) 1 = Some [] ->
   forall loadNext,
     loadHtml h polls loadNext spec =
     followLinks h loadNext window (headLinks (document window))
                 url responseUrl).
Proof.
  intros url responseUrl Hrender Hmeta. split.
  - intros field Hfield Hne target. split.
    + intros [Hurl Hresp].
      unfold loadSpecificationFromHtml.
      rewrite (loadHtml_rendered _ _ _ _ _ Hrender).
      rewrite (metaRedirect_field h _ _ _ _ _ Hmeta Hfield Hne). simpl.
      apply eqs_neq in Hurl, Hresp.
      fold target. fold url. fold responseUrl.
      rewrite Hurl, Hresp. reflexivity.
    + intros Hsame loadNext loadNext' Hagree.
      apply loadHtml_ext. fold url. fold responseUrl.
      intros t Ht1 Ht2. apply Hagree.
      destruct Hsame as [-> | ->]; assumption.
  - intros Hfield loadNext.
    rewrite (loadHtml_rendered _ _ _ _ _ Hrender).
    fold url. fold responseUrl.
    rewrite (metaRedirect_no_field h _ url responseUrl _ Hmeta Hfield).
    reflexivity.
Qed.

Lemma meta_refresh_redirect_witness :
  loadSpecificationFromHtml Fixture.host 0
    (mkSpec (Some (lit "http://example.org/a"))
            (Some (Fixture.refreshTo "http://example.org/d")) None)
    None =
  loadSpecificationFromUrl Fixture.host 0 (Some (lit "http://example.org/d"))
                           (Some 1).
Proof.
  pose proof
    (meta_refresh_redirect Fixture.host 0
       (mkSpec (Some (lit "http://example.org/a"))
               (Some (Fixture.refreshTo "http://example.org/d")) None)
       None
       (mkWindow
          (mkDocument None [] false false
                      (Some (Some (lit "0; http://example.org/d"))) []
                      (lit "http://example.org/a") []) None)
       (Some (lit "0; http://example.org/d"))) as H.
  simpl in H. specialize (H ltac:(vm_compute; reflexivity) eq_refl).
  destruct H as [H _].
  specialize (H (lit " http://example.org/d")
                ltac:(vm_compute; reflexivity) ltac:(discriminate)).
  destruct H as [H _]. apply H.
  split; vm_compute; discriminate.
Defined.

(** C4 as stated fails: the second field of ["0;"] is empty and
    resolves to the base URI, which differs from both URLs of the
    document, yet the window is returned and nothing is fetched. *)
Lemma meta_refresh_redirect_counterexample :
  let spec := mkSpec (Some (lit "http://example.org/spec/"))
                     (Some Fixture.emptyRefreshMarkup) None in
  let window := mkWindow Fixture.emptyRefresh None in
  let target :=
    URL_resolve Fixture.host (baseURI Fixture.emptyRefresh) (trim []) in
  render Fixture.host 0 Fixture.emptyRefreshMarkup
         (lit "http://example.org/spec/") = Resolved window
  /\ metaRefresh (document window) = Some (Some (lit "0;"))
  /\ nth_error (split (lit "0;") 59) 1 = Some []
  /\ target <> lit "http://example.org/spec/"
  /\ loadSpecificationFromHtml Fixture.host 0 spec None =
     mkRun [] (Resolved window)
  /\ loadSpecificationFromHtml Fixture.host 0 spec None <>
     loadSpecificationFromUrl Fixture.host 0 (Some target) (Some 1).
Proof.
  repeat split; try (vm_compute; reflexivity); vm_compute; discriminate.
Qed.

(** C5, as amended.  In a rendered document whose meta refresh, if any,
    is not followed, the first link of the [.head dl] block, in document
    order, whose lower-cased text contains one of the four phrases
    decides: when its resolved target is the URL or the response URL the
    window is returned and nothing is fetched, otherwise the resolution
    goes on with [loadSpecificationFromUrl] on the target and the counter
    plus one. *)
Theorem single_page_link (h : Host) (polls : nat) (spec : Spec)
        (counter : option nat) (window : Window)
        (pre : list Link) (link : Link) (post : list Link) :
  let url := orElse (url spec) (lit "about:blank") in
  let responseUrl := orElse (responseUrl spec) url in
  render h polls (orElse (html spec) []) responseUrl = Resolved window ->
  metaRedirect h (document window) url responseUrl = None ->
  headLinks (document window) = pre ++ link :: post ->
  existsb (fun l => isSinglePageText (toLowerCase h (textContent l))) pre
  = false ->
  isSinglePageText (toLowerCase h (textContent link)) = true ->
  let target :=
    URL_resolve h (baseURI (document window)) (href_attr link) in
  (target = url \/ target = responseUrl ->
   loadSpecificationFromHtml h polls spec counter =
   mkRun [] (Resolved window))
  /\
  (target <> url /\ target <> responseUrl ->
   loadSpecificationFromHtml h polls spec counter =
   loadSpecificationFromUrl h polls (Some target)
                            (Some (orZero counter + 1))).
Proof.
  intros url responseUrl Hrender Hmeta Hlinks Hpre Hlink target.
  unfold loadSpecificationFromHtml.
  rewrite (loadHtml_rendered _ _ _ _ _ Hrender).
  fold url. fold responseUrl. rewrite Hmeta, Hlinks.
  rewrite followLinks_first by assumption. simpl. fold target.
  split.
  - intros [E|E]; apply eqs_eq in E; rewrite E;
      [|rewrite orb_true_r]; reflexivity.
  - intros [E1 E2]. apply eqs_neq in E1, E2. rewrite E1, E2. reflexivity.
Qed.

Lemma single_page_link_witness :
  loadSpecificationFromHtml Fixture.host 0
    (mkSpec (Some (lit "http://example.org/multi/"))
            (Some Fixture.twoLinksMarkup) None) None =
  loadSpecificationFromUrl Fixture.host 0
    (Some (lit "http://example.org/one.html")) (Some 1).
Proof.
  refine
    (proj2
       (single_page_link Fixture.host 0
          (mkSpec (Some (lit "http://example.org/multi/"))
                  (Some Fixture.twoLinksMarkup) None)
          None
          (mkWindow (Fixture.twoLinks (lit "http://example.org/multi/")) None)
          []
          (mkLink (lit "single page") (lit "http://example.org/one.html"))
          [mkLink (lit "Single Page") (lit "http://example.org/multi/")]
          _ _ _ _ _) _).
  - vm_compute. reflexivity.
  - vm_compute. reflexivity.
  - vm_compute. reflexivity.
  - vm_compute. reflexivity.
  - vm_compute. reflexivity.
  - split; vm_compute; discriminate.
Defined.

(** C5 as stated fails: the second link has a single-page text and its
    target is the requested URL, yet the loop stops at the first such
    link and fetches its target. *)
Lemma single_page_link_counterexample :
  let url := lit "http://example.org/multi/" in
  let spec := mkSpec (Some url) (Some Fixture.twoLinksMarkup) None in
  let window := mkWindow (Fixture.twoLinks url) None in
  let second := mkLink (lit "Single Page") (lit "http://example.org/multi/") in
  render Fixture.host 0 Fixture.twoLinksMarkup url = Resolved window
  /\ metaRedirect Fixture.host (document window) url url = None
  /\ In second (headLinks (document window))
  /\ isSinglePageText (toLowerCase Fixture.host (textContent second)) = true
  /\ URL_resolve Fixture.host (baseURI (document window)) (href_attr second)
     = url
  /\ fetched (loadSpecificationFromHtml Fixture.host 0 spec None) =
     [Some (lit "http://example.org/one.html")]
  /\ loadSpecificationFromHtml Fixture.host 0 spec None <>
     mkRun [] (Resolved window).
Proof.
  repeat split; try (vm_compute; reflexivity).
  - simpl. right. left. reflexivity.
  - vm_compute. discriminate.
Qed.

(** C8, as amended.  For markup that is a byte order mark followed by
    text that does not itself begin with a byte order mark, resolving the
    markup and resolving the text give the same run, hence the same
    document and the same text content. *)
Theorem byte_order_mark_dropped (h : Host) (polls : nat) (spec : Spec)
        (counter : option nat) (markup : jsstring) :
  html spec = Some (65279%N :: markup) ->
  charCodeAt markup 0 <> Some 65279%N ->
  loadSpecificationFromHtml h polls spec counter =
  loadSpecificationFromHtml h polls
    (mkSpec (url spec) (Some markup) (responseUrl spec)) counter.
Proof.
  intros Hhtml Hnext.
  unfold loadSpecificationFromHtml, loadHtml. simpl. rewrite Hhtml. simpl.
  assert (Hrender : forall responseUrl,
             render h polls (65279%N :: markup) responseUrl =
             render h polls (if truthy markup then markup else [])
                    responseUrl).
  { intros responseUrl. unfold render. simpl.
    replace (substringFrom (65279%N :: markup) 1) with markup
      by (unfold substringFrom, clamp; simpl; reflexivity).
    destruct markup as [|c markup]; simpl; [reflexivity|].
    simpl in Hnext. destruct (N.eqb c 65279) eqn:E; [|reflexivity].
    apply N.eqb_eq in E. subst c. contradiction. }
  rewrite Hrender. reflexivity.
Qed.

Lemma byte_order_mark_dropped_witness :
  loadSpecificationFromHtml Fixture.host 0
    (mkSpec None (Some (65279%N :: Fixture.paragraph)) None) None =
  loadSpecificationFromHtml Fixture.host 0
    (mkSpec None (Some Fixture.paragraph) None) None.
Proof.
  apply (byte_order_mark_dropped Fixture.host 0
           (mkSpec None (Some (65279%N :: Fixture.paragraph)) None) None
           Fixture.paragraph).
  - reflexivity.
  - vm_compute. discriminate.
Defined.

(** C8 as stated fails: of two leading byte order marks only one is
    dropped, so the document of the markup keeps one in its text while
    the document of the markup without its first character keeps none. *)
Lemma byte_order_mark_dropped_counterexample :
  let markup := 65279%N :: 65279%N :: Fixture.paragraph in
  let stripped := 65279%N :: Fixture.paragraph in
  exists w w',
    outcome (loadSpecificationFromHtml Fixture.host 0
               (mkSpec None (Some markup) None) None) = Resolved w
    /\ outcome (loadSpecificationFromHtml Fixture.host 0
                  (mkSpec None (Some stripped) None) None) = Resolved w'
    /\ documentText (document w) = 65279%N :: lit "Hi"
    /\ documentText (document w') = lit "Hi"
    /\ documentText (document w) <> documentText (document w').
Proof.
  eexists. eexists.
  split; [vm_compute; reflexivity|].
  split; [vm_compute; reflexivity|].
  split; [vm_compute; reflexivity|].
  split; [vm_compute; reflexivity|].
  vm_compute. discriminate.
Qed.

(** C9.  When the [html] property of the request is absent or empty,
    [loadSpecification] is [loadSpecificationFromUrl] on the [url]
    property: its first action is the fetch of that URL, and a failed
    fetch is the whole result.  When [html] is a non-empty string it is
    [loadSpecificationFromHtml] on the request: the markup is rendered
    first and a failed rendering is the whole result, with no fetch.  A
    request that is a string is a request with that [url] and no
    [html]. *)
Theorem loadSpecification_branch (h : Host) (polls : nat) (spec : Spec) :
  (html spec = None \/ html spec = Some [] ->
   loadSpecification h polls (OfSpec spec) =
   loadSpecificationFromUrl h polls (url spec) None
   /\ (exists rest,
          fetched (loadSpecification h polls (OfSpec spec)) =
          url spec :: rest)
   /\ (forall e,
          baseFetch h (url spec) = inl e ->
          loadSpecification h polls (OfSpec spec) =
          mkRun [url spec] (Rejected e)))
  /\
  (forall markup,
      html spec = Some markup -> markup <> [] ->
      loadSpecification h polls (OfSpec spec) =
      loadSpecificationFromHtml h polls spec None
      /\ (forall e,
             render h polls markup
               (orElse (responseUrl spec)
                       (orElse (url spec) (lit "about:blank")))
             = Rejected e ->
             loadSpecification h polls (OfSpec spec) =
             mkRun [] (Rejected e)))
  /\
  (forall u,
      loadSpecification h polls (OfUrl u) =
      loadSpecificationFromUrl h polls (Some u) None).
Proof.
  split; [|split; [|reflexivity]].
  - intros Hhtml.
    assert (Hbranch : loadSpecification h polls (OfSpec spec) =
                      loadSpecificationFromUrl h polls (url spec) None).
    { unfold loadSpecification. destruct Hhtml as [-> | ->]; reflexivity. }
    rewrite Hbranch, loadSpecificationFromUrl_eq. simpl.
    split; [reflexivity|]. unfold fetch.
    destruct (baseFetch h (url spec)) as [e|response].
    + split; [exists []; reflexivity|]. intros e' [= <-]. reflexivity.
    + split; [|discriminate]. unfold bind at 1 2. simpl.
      eexists. reflexivity.
  - intros markup Hhtml Hne.
    assert (Hbranch : loadSpecification h polls (OfSpec spec) =
                      loadSpecificationFromHtml h polls spec None).
    { unfold loadSpecification. rewrite Hhtml.
      destruct markup; [contradiction|reflexivity]. }
    split; [exact Hbranch|]. intros e Hrender. rewrite Hbranch.
    unfold loadSpecificationFromHtml, loadHtml. rewrite Hhtml.
    destruct markup as [|c markup]; [contradiction|]. simpl orElse at 1.
    simpl in Hrender |- *. rewrite Hrender. reflexivity.
Qed.

Lemma loadSpecification_branch_witness :
  fetched (loadSpecification Fixture.host 0
             (OfSpec (mkSpec (Some (lit "http://example.org/d"))
                             (Some []) None))) =
  [Some (lit "http://example.org/d")]
  /\ loadSpecification Fixture.host 0
       (OfSpec (mkSpec (Some (lit "http://example.org/d"))
                       (Some Fixture.paragraph) None)) =
     loadSpecificationFromHtml Fixture.host 0
       (mkSpec (Some (lit "http://example.org/d"))
               (Some Fixture.paragraph) None) None.
Proof.
  split.
  - destruct (loadSpecification_branch Fixture.host 0
                (mkSpec (Some (lit "http://example.org/d")) (Some []) None))
      as [H _].
    destruct (H (or_intror eq_refl)) as [Hbranch _].
    rewrite Hbranch. vm_compute. reflexivity.
  - destruct (loadSpecification_branch Fixture.host 0
                (mkSpec (Some (lit "http://example.org/d"))
                        (Some Fixture.paragraph) None))
      as (_ & H & _).
    apply (H Fixture.paragraph eq_refl). vm_compute. discriminate.
Defined.

(** C10.  In [loadSpecificationFromHtml] a missing [url] is
    ["about:blank"] and a missing [responseUrl] is the value of [url],
    while values that are given are kept.  The two values are used: the
    document is built at the defaulted response URL, and the target of a
    meta refresh and the target of the single-page link are compared
    with the two defaulted values, so that a target equal to one of them
    is not followed and any other target is loaded with the counter plus
    one.  The result is that of the request with both values filled
    in. *)
Theorem html_defaults (h : Host) (polls : nat) (spec : Spec)
        (counter : option nat) :
  let url' := orElse (url spec) (lit "about:blank") in
  let responseUrl' := orElse (responseUrl spec) url' in
  let promise := render h polls (orElse (html spec) []) responseUrl' in
  let run := loadSpecificationFromHtml h polls spec counter in
  let next := fun t =>
    loadSpecificationFromUrl h polls (Some t) (Some (orZero counter + 1)) in
  (url spec = None -> url' = lit "about:blank")
  /\ (forall u, url spec = Some u -> u <> [] -> url' = u)
  /\ (responseUrl spec = None -> responseUrl' = url')
  /\ (forall r, responseUrl spec = Some r -> r <> [] -> responseUrl' = r)
  /\ (forall e, promise = Rejected e -> run = mkRun [] (Rejected e))
  /\ (forall window,
         promise = Resolved window ->
         (forall content field,
             metaRefresh (document window) = Some content ->
             nth_error (split (orElse content []) 59) 1 = Some field ->
             field <> [] ->
             let target :=
               URL_resolve h (baseURI (document window)) (trim field) in
             (target = url' \/ target = responseUrl' ->
              run = followLinks h next window (headLinks (document window))
                                url' responseUrl')
             /\ (target <> url' /\ target <> responseUrl' ->
                 run = next target))
         /\
         (forall pre link post,
             metaRedirect h (document window) url' responseUrl' = None ->
             headLinks (document window) = pre ++ link :: post ->
             existsb (fun l =>
                        isSinglePageText (toLowerCase h (textContent l))) pre
             = false ->
             isSinglePageText (toLowerCase h (textContent link)) = true ->
             let target :=
               URL_resolve h (baseURI (document window)) (href_attr link) in
             (target = url' \/ target = responseUrl' ->
              run = mkRun [] (Resolved window))
             /\ (target <> url' /\ target <> responseUrl' ->
                 run = next target)))
  /\ run =
     loadSpecificationFromHtml h polls
       (mkSpec (Some url') (html spec) (Some responseUrl')) counter
  /\ (forall doc target,
         metaRedirect h doc url' responseUrl' = Some target ->
         target <> url' /\ target <> responseUrl')
  /\ (forall loadNext loadNext',
         (forall t, t <> url' -> t <> responseUrl' ->
                    loadNext t = loadNext' t) ->
         loadHtml h polls loadNext spec = loadHtml h polls loadNext' spec).
Proof.
  intros url' responseUrl' promise run next.
  assert (Hurl : truthy url' = true)
    by (apply orElse_truthy; reflexivity).
  assert (Hresp : truthy responseUrl' = true)
    by (apply orElse_truthy; exact Hurl).
  split; [intros H; unfold url'; rewrite H; reflexivity|].
  split; [intros u H Hu; unfold url'; rewrite H;
          destruct u; [contradiction|reflexivity]|].
  split; [intros H; unfold responseUrl'; rewrite H; reflexivity|].
  split; [intros r H Hr; unfold responseUrl'; rewrite H;
          destruct r; [contradiction|reflexivity]|].
  split.
  { intros e He. unfold run, loadSpecificationFromHtml, loadHtml.
    fold url'. fold responseUrl'. fold promise. rewrite He. reflexivity. }
  split.
  { intros window Hrender.
    assert (Hrun : run =
                   match metaRedirect h (document window) url' responseUrl'
                   with
                   | Some redirectUrl => next redirectUrl
                   | None =>
                       followLinks h next window
                                   (headLinks (document window))
                                   url' responseUrl'
                   end).
    { unfold run, loadSpecificationFromHtml.
      rewrite (loadHtml_rendered _ _ _ _ _ Hrender). reflexivity. }
    split.
    - intros content field Hmeta Hfield Hne target.
      rewrite Hrun,
        (metaRedirect_field h _ url' responseUrl' _ _ Hmeta Hfield Hne).
      cbv zeta. fold target. split.
      + intros [E|E]; apply eqs_eq in E; rewrite E;
          [|rewrite andb_false_r]; reflexivity.
      + intros [E1 E2]. apply eqs_neq in E1, E2. rewrite E1, E2.
        reflexivity.
    - intros pre link post Hmeta Hlinks Hpre Hlink target.
      rewrite Hrun, Hmeta, Hlinks.
      rewrite followLinks_first by assumption. cbv zeta. fold target.
      split.
      + intros [E|E]; apply eqs_eq in E; rewrite E;
          [|rewrite orb_true_r]; reflexivity.
      + intros [E1 E2]. apply eqs_neq in E1, E2. rewrite E1, E2.
        reflexivity. }
  split.
  { unfold run, loadSpecificationFromHtml, loadHtml.
    cbn [url html responseUrl].
    fold url'. rewrite (orElse_idem url' _ Hurl).
    fold responseUrl'. rewrite (orElse_idem responseUrl' _ Hresp).
    reflexivity. }
  split.
  - intros doc target. apply metaRedirect_differs.
  - intros loadNext loadNext' Hagree. apply loadHtml_ext. exact Hagree.
Qed.

Lemma html_defaults_witness :
  let w :=
    mkWindow (mkDocument None [] false false
                         (Some (Some (lit "0; about:blank"))) []
                         (lit "about:blank") []) None in
  loadSpecificationFromHtml Fixture.host 0
    (mkSpec None (Some (Fixture.refreshTo "about:blank")) None) None =
  followLinks Fixture.host
    (fun t => loadSpecificationFromUrl Fixture.host 0 (Some t) (Some 1))
    w (headLinks (document w)) (lit "about:blank") (lit "about:blank").
Proof.
  intros w.
  pose proof
    (html_defaults Fixture.host 0
       (mkSpec None (Some (Fixture.refreshTo "about:blank")) None) None)
    as H.
  cbv zeta in H. destruct H as (_ & _ & _ & _ & _ & H & _).
  specialize (H w ltac:(vm_compute; reflexivity)).
  destruct H as [H _].
  specialize (H (Some (lit "0; about:blank")) (lit " about:blank")
                eq_refl ltac:(vm_compute; reflexivity) ltac:(discriminate)).
  destruct H as [H _]. apply H.
  left. vm_compute. reflexivity.
Defined.

(** ** Patterns made of single characters *)

Lemma matchAt_chars ps r : forall pos s,
  matchAt (map Chr ps ++ r) pos s =
  match takeChars ps s with
  | Some rest => matchAt r (pos + length ps) rest
  | None => None
  end.
Proof.
  induction ps as [|p ps IH]; intros pos s; simpl.
  - rewrite Nat.add_0_r. reflexivity.
  - destruct s as [|c s]; [reflexivity|].
    destruct (p c); [|reflexivity].
    rewrite IH. replace (S pos + length ps) with (pos + S (length ps)) by lia.
    reflexivity.
Qed.

Lemma takeChars_spec ps : forall s rest,
  takeChars ps s = Some rest <->
  exists m, s = m ++ rest /\ Forall2 (fun p c => p c = true) ps m.
Proof.
  induction ps as [|p ps IH]; intros s rest; simpl.
  - split.
    + intros [= ->]. exists []. split; [reflexivity|constructor].
    + intros (m & -> & Hm). inversion Hm. reflexivity.
  - destruct s as [|c s].
    + split; [discriminate|]. intros (m & Hs & Hm).
      inversion Hm; subst. discriminate.
    + destruct (p c) eqn:Hp.
      * rewrite IH. split.
        -- intros (m & -> & Hm). exists (c :: m). split; [reflexivity|].
           constructor; assumption.
        -- intros (m & Hs & Hm). inversion Hm; subst.
           injection Hs as <- ->. eexists. split; [reflexivity|assumption].
      * split; [discriminate|]. intros (m & Hs & Hm).
        inversion Hm; subst. injection Hs as <- ->. congruence.
Qed.

Lemma test_chars ps s :
  test (map Chr ps) s = true <->
  exists pre m post,
    s = pre ++ m ++ post /\ Forall2 (fun p c => p c = true) ps m.
Proof.
  unfold test, exec. generalize 0 as pos.
  induction s as [|c s IH]; intros pos.
  - simpl. rewrite <- (app_nil_r (map Chr ps)), matchAt_chars.
    destruct (takeChars ps []) as [rest|] eqn:E; simpl.
    + split; [intros _|reflexivity].
      apply takeChars_spec in E as (m & Hs & Hm).
      exists [], m, rest. split; [exact Hs|exact Hm].
    + split; [discriminate|]. intros (pre & m & post & Hs & Hm).
      destruct pre; [|discriminate]. simpl in Hs.
      assert (takeChars ps [] = Some post)
        by (apply takeChars_spec; exists m; auto).
      congruence.
  - simpl. rewrite <- (app_nil_r (map Chr ps)), matchAt_chars.
    rewrite (app_nil_r (map Chr ps)).
    destruct (takeChars ps (c :: s)) as [rest|] eqn:E; simpl.
    + split; [intros _|reflexivity].
      apply takeChars_spec in E as (m & Hs & Hm).
      exists [], m, rest. split; [exact Hs|exact Hm].
    + rewrite IH. split.
      * intros (pre & m & post & -> & Hm).
        exists (c :: pre), m, post. split; [reflexivity|exact Hm].
      * intros (pre & m & post & Hs & Hm).
        destruct pre as [|c' pre].
        -- simpl in Hs.
           assert (takeChars ps (c :: s) = Some post)
             by (apply takeChars_spec; exists m; auto).
           congruence.
        -- injection Hs as <- ->. exists pre, m, post. auto.
Qed.

Lemma Forall2_chrI (w m : jsstring) :
  Forall2 (fun p c => p c = true)
          (map (fun c x => N.eqb (canonicalize x) (canonicalize c)) w) m <->
  map canonicalize m = map canonicalize w.
Proof.
  revert m; induction w as [|c w IH]; intros m; simpl.
  - split.
    + intros H; inversion H; reflexivity.
    + destruct m; [constructor|discriminate].
  - split.
    + intros H; inversion H; subst. simpl.
      f_equal; [apply N.eqb_eq; assumption|apply IH; assumption].
    + destruct m as [|x m]; [discriminate|]. simpl. intros [= Hx Hm].
      constructor; [apply N.eqb_eq; assumption|apply IH; assumption].
Qed.

(** A literal pattern with the [i] flag finds its text up to case. *)
Lemma test_strI (w : string) (s : jsstring) :
  test (strI w) s = true <-> containsI s w.
Proof.
  unfold strI, chrI, containsI.
  rewrite <- (map_map (fun c x => N.eqb (canonicalize x) (canonicalize c)) Chr).
  rewrite test_chars.
  split; intros (pre & m & post & Hs & Hm); exists pre, m, post;
    (split; [exact Hs|apply Forall2_chrI; exact Hm]).
Qed.

(** ** The promise of [getDocumentAndGenerator] *)

Import Detector.

Lemma runHook_window d hook : window (runHook d hook) = window d.
Proof. destruct hook; reflexivity. Qed.

Lemma runHooks_window hs : forall d,
  window (fold_left runHook hs d) = window d.
Proof.
  induction hs as [|hook hs IH]; intros d; simpl; [reflexivity|].
  rewrite IH. apply runHook_window.
Qed.

Lemma step_window d ev : window (step d ev) = window d.
Proof.
  destruct ev; simpl.
  - apply runHooks_window.
  - destruct (timeout d); reflexivity.
Qed.

(** A settled promise stays as it is. *)
Lemma runHooks_settled hs : forall d,
  promise d <> Pending -> promise (fold_left runHook hs d) = promise d.
Proof.
  induction hs as [|hook hs IH]; intros d Hd; simpl; [reflexivity|].
  assert (Hhook : promise (runHook d hook) = promise d).
  { destruct hook; simpl; [reflexivity|].
    destruct (promise d); try reflexivity. contradiction. }
  rewrite IH; rewrite Hhook; auto.
Qed.

Lemma step_settled d ev :
  promise d <> Pending -> promise (step d ev) = promise d.
Proof.
  intros Hd. destruct ev; simpl.
  - apply runHooks_settled, Hd.
  - destruct (timeout d); simpl; [|reflexivity].
    destruct (promise d); try reflexivity. contradiction.
Qed.

Lemma steps_settled evs : forall d,
  promise d <> Pending -> promise (fold_left step evs d) = promise d.
Proof.
  induction evs as [|ev evs IH]; intros d Hd; simpl; [reflexivity|].
  rewrite IH; rewrite step_settled; auto.
Qed.

(** Running the hooks resolves a pending promise when the closure of
    [getDocumentAndGenerator] is among them, and only then. *)
Lemma runHooks_pending hs : forall d,
  promise d = Pending ->
  promise (fold_left runHook hs d) =
  if existsb (fun hook => match hook with
                          | ResolveRespec => true
                          | PageHook _ => false
                          end) hs
  then Resolved (mkResult (document (window d)) (Some (lit "respec")))
  else Pending.
Proof.
  induction hs as [|hook hs IH]; intros d Hd; simpl; [exact Hd|].
  destruct hook as [id|]; simpl.
  - apply IH, Hd.
  - rewrite runHooks_settled; simpl; rewrite Hd; simpl;
      [reflexivity|discriminate].
Qed.

Lemma step_unresolved d ev :
  (forall r, promise d <> Resolved r) ->
  ev = Timer ->
  forall r, promise (step d ev) <> Resolved r.
Proof.
  intros Hd -> r. simpl.
  destruct (timeout d); simpl; [|apply Hd].
  destruct (promise d) eqn:E; simpl; try discriminate.
  intros H. apply (Hd r). exact H.
Qed.

(** Only a run of the hooks resolves the promise, and to ['respec']. *)
Lemma steps_resolved evs : forall d r,
  (forall r', promise d <> Resolved r') ->
  promise (fold_left step evs d) = Resolved r ->
  In PostProcess evs /\
  r = mkResult (document (window d)) (Some (lit "respec")).
Proof.
  induction evs as [|ev evs IH]; intros d r Hd Hr; simpl in Hr.
  - exfalso. apply (Hd r), Hr.
  - destruct ev.
    + split; [left; reflexivity|].
      destruct (promise d) eqn:Ed.
      * exfalso. apply (Hd a). reflexivity.
      * rewrite steps_settled in Hr
          by (rewrite step_settled; rewrite Ed; discriminate).
        rewrite step_settled in Hr by (rewrite Ed; discriminate).
        congruence.
      * pose proof (runHooks_pending (hooks (window d)) d Ed) as Hrun.
        destruct (existsb _ _).
        -- rewrite steps_settled in Hr
             by (simpl; rewrite Hrun; discriminate).
           simpl in Hr. rewrite Hrun in Hr. congruence.
        -- apply IH in Hr as [_ Hr].
           ++ rewrite step_window in Hr. exact Hr.
           ++ intros r'. simpl. rewrite Hrun. discriminate.
    + apply IH in Hr as [Hin Hr].
      * split; [right; exact Hin|]. rewrite step_window in Hr. exact Hr.
      * apply step_unresolved; auto.
Qed.

(** The detection of a ReSpec source: third branch of the function. *)
Lemma detection_respec_source w :
  match metaGenerator (document w) with
  | Some content => test reBikeshed content
  | None => false
  end = false ->
  eqs (bodyId (document w)) (lit "respecDocument") = false ->
  usesRespec w = true ->
  getDocumentAndGenerator w =
  mkDetection (pushPostProcess w ResolveRespec) Pending (Some 30000%N).
Proof.
  intros H1 H2 H3. unfold getDocumentAndGenerator.
  rewrite H1, H2. unfold usesRespec in H3. rewrite H3. reflexivity.
Qed.

Lemma hooks_push w :
  respecConfig w <> None ->
  hooks (pushPostProcess w ResolveRespec) = hooks w ++ [ResolveRespec].
Proof.
  unfold hooks, pushPostProcess.
  destruct (respecConfig w) as [config|]; [|contradiction].
  intros _. simpl. destruct (postProcess config); reflexivity.
Qed.

Lemma document_push w hook :
  document (pushPostProcess w hook) = document w.
Proof.
  unfold pushPostProcess. destruct (respecConfig w); reflexivity.
Qed.

(** C1, as amended.  [getDocumentAndGenerator] names the generator by
    the first test that succeeds: the content of the generator meta tag
    contains "bikeshed" up to case: ['bikeshed']; the id of the body is
    "respecDocument": ['respec']; the window declares [respecConfig] and
    the head has a script whose [src] contains "respec": the promise is
    pending, the closure that resolves it to ['respec'] is the last hook
    of [respecConfig.postProcess], and only a run of the hooks resolves
    it; an element with id 'anolis-references' exists: ['anolis'];
    otherwise the promise resolves to the document alone, with no
    generator. *)
Theorem generator_classification (w : Window) :
  let doc := document w in
  let d := getDocumentAndGenerator w in
  let bikeshed :=
    match metaGenerator doc with
    | Some content => test reBikeshed content
    | None => false
    end in
  let marker := eqs (bodyId doc) (lit "respecDocument") in
  let source := usesRespec w in
  (forall content,
      test reBikeshed content = true <-> containsI content "bikeshed")
  /\ (marker = true <-> bodyId doc = lit "respecDocument")
  /\ (bikeshed = true ->
      promise d = Resolved (mkResult doc (Some (lit "bikeshed"))))
  /\ (bikeshed = false -> marker = true ->
      promise d = Resolved (mkResult doc (Some (lit "respec"))))
  /\ (bikeshed = false -> marker = false -> source = true ->
      promise d = Pending
      /\ hooks (window d) = hooks w ++ [ResolveRespec]
      /\ promise (step d PostProcess) =
         Resolved (mkResult doc (Some (lit "respec")))
      /\ (forall evs r,
             promise (fold_left step evs d) = Resolved r ->
             In PostProcess evs /\ r = mkResult doc (Some (lit "respec"))))
  /\ (bikeshed = false -> marker = false -> source = false ->
      anolisReferences doc = true ->
      promise d = Resolved (mkResult doc (Some (lit "anolis"))))
  /\ (bikeshed = false -> marker = false -> source = false ->
      anolisReferences doc = false ->
      promise d = Resolved (mkResult doc None)).
Proof.
  intros doc d bikeshed marker source.
  split; [intros content; apply test_strI|].
  split; [apply eqs_eq|].
  split; [|split; [|split; [|split]]].
  - intros Hb. unfold d, getDocumentAndGenerator. fold doc.
    fold bikeshed. rewrite Hb. reflexivity.
  - intros Hb Hm. unfold d, getDocumentAndGenerator. fold doc.
    fold bikeshed. rewrite Hb. fold marker. rewrite Hm. reflexivity.
  - intros Hb Hm Hs.
    assert (Hd : d = mkDetection (pushPostProcess w ResolveRespec) Pending
                                 (Some 30000%N))
      by (apply detection_respec_source; assumption).
    assert (Hconfig : respecConfig w <> None).
    { unfold source, usesRespec in Hs.
      destruct (respecConfig w); [discriminate|discriminate]. }
    rewrite Hd. cbn [promise window].
    split; [reflexivity|].
    split; [apply hooks_push, Hconfig|].
    split.
    + cbn [step window]. rewrite runHooks_pending by reflexivity.
      rewrite hooks_push by exact Hconfig.
      rewrite existsb_app. simpl. rewrite orb_true_r.
      cbn [window]. rewrite document_push. reflexivity.
    + intros evs r Hr. apply steps_resolved in Hr.
      * cbn [window] in Hr. rewrite document_push in Hr. exact Hr.
      * intros r'. discriminate.
  - intros Hb Hm Hs Ha. unfold d, getDocumentAndGenerator. fold doc.
    fold bikeshed. rewrite Hb. fold marker. rewrite Hm.
    unfold source, usesRespec in Hs. fold doc in Hs. rewrite Hs, Ha.
    reflexivity.
  - intros Hb Hm Hs Ha. unfold d, getDocumentAndGenerator. fold doc.
    fold bikeshed. rewrite Hb. fold marker. rewrite Hm.
    unfold source, usesRespec in Hs. fold doc in Hs. rewrite Hs, Ha.
    reflexivity.
Qed.

Lemma generator_classification_witness :
  let doc :=
    mkDocument (Some (lit "Bikeshed version 1.0")) (lit "respecDocument")
               true true None [] (lit "http://example.org/") [] in
  promise (getDocumentAndGenerator (mkWindow doc (Some (mkRespecConfig None))))
  = Resolved (mkResult doc (Some (lit "bikeshed"))).
Proof.
  intros doc.
  destruct (generator_classification
              (mkWindow doc (Some (mkRespecConfig None))))
    as (_ & _ & H & _).
  apply H. vm_compute. reflexivity.
Defined.

(** C1 as stated fails in its last case: a window with none of the marks
    resolves to an object without generator, not to the generator
    ['unknown']. *)
Lemma generator_classification_counterexample :
  let w := mkWindow (Fixture.blank (lit "http://example.org/") (lit "Hi"))
                    None in
  metaGenerator (document w) = None
  /\ eqs (bodyId (document w)) (lit "respecDocument") = false
  /\ usesRespec w = false
  /\ anolisReferences (document w) = false
  /\ promise (getDocumentAndGenerator w) =
     Resolved (mkResult (document w) None)
  /\ promise (getDocumentAndGenerator w) <>
     Resolved (mkResult (document w) (Some (lit "unknown"))).
Proof.
  repeat split; try reflexivity. vm_compute. discriminate.
Qed.

(** ** Waiting for ReSpec *)









(** ** What the patterns of the gate match *)

Import Gate.

Ltac absurd_none :=
  let H := fresh in intros H; exfalso; apply H; reflexivity.

(** When the success of a pattern at a position depends on the rest of
    the input only, [test] looks for a suffix where it succeeds. *)
Lemma test_suffix (r : pattern) (P : jsstring -> Prop) :
  (forall pos s, matchAt r pos s <> None <-> P s) ->
  forall s, test r s = true <-> exists pre post, s = pre ++ post /\ P post.
Proof.
  intros Hr s. unfold test, exec. generalize 0 as pos.
  induction s as [|c s IH]; intros pos; simpl.
  - destruct (matchAt r pos []) as [[e g]|] eqn:E.
    + split; [intros _|reflexivity]. exists [], []. split; [reflexivity|].
      apply (Hr pos). rewrite E. discriminate.
    + split; [discriminate|]. intros (pre & post & Hs & HP).
      symmetry in Hs. apply app_eq_nil in Hs as [-> ->].
      apply (Hr pos) in HP. contradiction.
  - destruct (matchAt r pos (c :: s)) as [[e g]|] eqn:E.
    + split; [intros _|reflexivity]. exists [], (c :: s).
      split; [reflexivity|]. apply (Hr pos). rewrite E. discriminate.
    + rewrite IH. split.
      * intros (pre & post & -> & HP). exists (c :: pre), post. auto.
      * intros (pre & post & Hs & HP). destruct pre as [|c' pre].
        -- simpl in Hs. subst post. apply (Hr pos) in HP. contradiction.
        -- injection Hs as <- ->. exists pre, post. auto.
Qed.

Lemma startsWith_spec (s p : jsstring) :
  startsWith s p = true <-> exists rest, s = p ++ rest.
Proof.
  revert s; induction p as [|y p IH]; intros s; simpl.
  - split; [intros _; exists s; reflexivity|reflexivity].
  - destruct s as [|x s].
    + split; [discriminate|intros (rest & H); discriminate].
    + rewrite andb_true_iff, N.eqb_eq, IH. split.
      * intros (-> & rest & ->). exists rest. reflexivity.
      * intros (rest & H). injection H as -> ->. split; eauto.
Qed.

Lemma endsWith_spec (s : jsstring) (w : string) :
  endsWith s (lit w) = true <-> endsIn s w.
Proof.
  unfold endsWith, endsIn. rewrite startsWith_spec. split.
  - intros (rest & H). exists (rev rest).
    rewrite <- (rev_involutive s), H, rev_app_distr, rev_involutive.
    reflexivity.
  - intros (pre & ->). exists (rev pre). apply rev_app_distr.
Qed.

Lemma test_reRespec (p : jsstring) :
  test reRespec p = true <-> matchesBootstrap p.
Proof.
  unfold reRespec, strI, chrI, matchesBootstrap.
  rewrite <- (map_map (fun c x => N.eqb (canonicalize x) (canonicalize c)) Chr).
  change [Chr (oneOf (lit "/-"))] with (map Chr [oneOf (lit "/-")]).
  rewrite <- map_app, test_chars. split.
  - intros (pre & m & post & -> & Hm).
    apply Forall2_app_inv_l in Hm as (m1 & m2 & Hm1 & Hm2 & ->).
    inversion Hm2 as [|p' c ps' cs Hc Hnil]; subst. inversion Hnil; subst.
    exists pre, m1, c, post. split; [rewrite <- app_assoc; reflexivity|].
    split; [apply Forall2_chrI; exact Hm1|].
    unfold oneOf in Hc. simpl in Hc.
    apply orb_true_iff in Hc as [Hc|Hc];
      [left|right; rewrite orb_false_r in Hc]; apply N.eqb_eq; exact Hc.
  - intros (pre & m & c & post & -> & Hm & Hc).
    exists pre, (m ++ [c]), post.
    split; [rewrite <- app_assoc; reflexivity|].
    apply Forall2_app; [apply Forall2_chrI; exact Hm|].
    constructor; [|constructor].
    destruct Hc as [-> | ->]; reflexivity.
Qed.

(** A greedy class that must reach the end of the input. *)
Lemma greedy_eos (p : N -> bool) : forall s min pos,
  greedy p (matchAt [Eos]) min pos s =
  if forallb p s && (min <=? length s)
  then Some (pos + length s, None) else None.
Proof.
  induction s as [|c s IH]; intros min pos; simpl.
  - destruct min; simpl; [rewrite Nat.add_0_r|]; reflexivity.
  - destruct (p c); simpl.
    + rewrite IH.
      replace (pred min <=? length s) with (min <=? S (length s))
        by (destruct min; reflexivity).
      destruct (forallb p s && (min <=? S (length s))).
      * f_equal. f_equal. lia.
      * destruct (min =? 0); reflexivity.
    + destruct (min =? 0); reflexivity.
Qed.

Lemma matchAt_reExtension (pos : nat) (s : jsstring) :
  matchAt reExtension pos s =
  match s with
  | c :: ext =>
      if N.eqb 46 c && forallb (noneOf (lit "/.")) ext && (1 <=? length ext)
      then Some (S pos + length ext, None) else None
  | [] => None
  end.
Proof.
  destruct s as [|c ext]; [reflexivity|].
  change (matchAt reExtension pos (c :: ext))
    with (if N.eqb 46 c
          then greedy (noneOf (lit "/.")) (matchAt [Eos]) 1 (S pos) ext
          else None).
  rewrite greedy_eos. destruct (N.eqb 46 c); reflexivity.
Qed.

Lemma noneOf_slash_dot (ext : jsstring) :
  forallb (noneOf (lit "/.")) ext = true <->
  Forall (fun c => c <> 47%N /\ c <> 46%N) ext.
Proof.
  rewrite forallb_forall, Forall_forall.
  split; intros H x Hx; specialize (H x Hx).
  - apply negb_true_iff in H.
    change (oneOf (lit "/.") x)
      with (N.eqb x 47 || (N.eqb x 46 || false)) in H.
    apply orb_false_iff in H as [H1 H2]. rewrite orb_false_r in H2.
    apply N.eqb_neq in H1, H2. auto.
  - destruct H as [H1 H2]. apply N.eqb_neq in H1, H2.
    change (noneOf (lit "/.") x)
      with (negb (N.eqb x 47 || (N.eqb x 46 || false))).
    rewrite H1, H2. reflexivity.
Qed.

Lemma test_reExtension (p : jsstring) :
  test reExtension p = true <-> hasExtension p.
Proof.
  unfold hasExtension.
  rewrite (test_suffix reExtension
             (fun s => exists ext,
                  s = 46%N :: ext /\ ext <> []
                  /\ Forall (fun c => c <> 47%N /\ c <> 46%N) ext)).
  - split.
    + intros (pre & post & -> & ext & -> & H). exists pre, ext. auto.
    + intros (pre & ext & -> & H). exists pre, (46%N :: ext).
      split; [reflexivity|]. exists ext. auto.
  - intros pos s. rewrite matchAt_reExtension.
    destruct s as [|c ext].
    + split; [absurd_none|]. intros (ext & H & _). discriminate.
    + destruct (N.eqb 46 c && forallb (noneOf (lit "/.")) ext
                && (1 <=? length ext)) eqn:E.
      * split; [intros _|discriminate].
        apply andb_true_iff in E as [E E3].
        apply andb_true_iff in E as [E1 E2].
        apply N.eqb_eq in E1. subst c. exists ext.
        split; [reflexivity|].
        split; [destruct ext; [discriminate|discriminate]|].
        apply noneOf_slash_dot, E2.
      * split; [absurd_none|].
        intros (ext' & [= -> ->] & Hne & Hext).
        apply noneOf_slash_dot in Hext. rewrite Hext in E.
        destruct ext'; [contradiction|discriminate].
Qed.

(** A pattern anchored at the start matches at index 0 or nowhere. *)
Lemma search_bos (r : pattern) (s : jsstring) : forall pos,
  search (Bos :: r) (S pos) s = None.
Proof.
  induction s as [|c s IH]; intros pos; simpl; [reflexivity|apply IH].
Qed.

Lemma test_reWebidl (p : jsstring) :
  test reWebidl p = true <->
  exists m post,
    p = m ++ post /\ map canonicalize m = map canonicalize (lit "/webidl/").
Proof.
  unfold test, exec, reWebidl.
  assert (Hfront : matchAt (Bos :: strI "/webidl/") 0 p <> None <->
                   exists m post,
                     p = m ++ post /\
                     map canonicalize m = map canonicalize (lit "/webidl/")).
  { change (matchAt (Bos :: strI "/webidl/") 0 p)
      with (matchAt (strI "/webidl/") 0 p).
    unfold strI, chrI.
    rewrite <- (map_map (fun c x => N.eqb (canonicalize x) (canonicalize c))
                        Chr).
    rewrite <- (app_nil_r (map Chr _)), matchAt_chars.
    destruct (takeChars _ p) as [rest|] eqn:E.
    - split; [intros _|simpl; discriminate].
      apply takeChars_spec in E as (m & -> & Hm).
      exists m, rest. split; [reflexivity|apply Forall2_chrI; exact Hm].
    - split; [absurd_none|].
      intros (m & post & -> & Hm).
      assert (takeChars
                (map (fun c x => N.eqb (canonicalize x) (canonicalize c))
                     (lit "/webidl/")) (m ++ post) = Some post)
        by (apply takeChars_spec; exists m; split;
            [reflexivity|apply Forall2_chrI; exact Hm]).
      congruence. }
  rewrite <- Hfront.
  destruct p as [|c p]; cbn [search];
    destruct (matchAt (Bos :: strI "/webidl/") 0 _) as [[e g]|];
    try rewrite search_bos;
    split; try discriminate; try reflexivity; absurd_none.
Qed.

Lemma deny_list (p : jsstring) :
  (test reAnnotateSpec p || test reExpanders p || test reBugAssist p
   || test reDfn p || test reSectionLinks p || test reWebidl p) = true
  <-> denied p.
Proof.
  unfold denied. rewrite !orb_true_iff.
  unfold reAnnotateSpec, reExpanders, reBugAssist, reDfn, reSectionLinks.
  rewrite !test_strI, test_reWebidl. tauto.
Qed.

(** ** The decision of the gate *)

Lemma skip_rule (p : jsstring) :
  test reExtension p && negb (endsWith p (lit ".js"))
  && negb (endsWith p (lit ".json")) = true
  <-> hasExtension p /\ ~ endsIn p ".js" /\ ~ endsIn p ".json".
Proof.
  rewrite <- test_reExtension, <- !endsWith_spec.
  destruct (test reExtension p), (endsWith p (lit ".js")),
    (endsWith p (lit ".json")); simpl; intuition congruence.
Qed.

Lemma allow_rule (url : Url) (options : Options) :
  eqs (pathname url) (lit "/webcomponents/assets/scripts/autolink.js")
  || (startsWith (href url) (referrerDirectory (referrer options))
      && negb (test reAnnotateSpec (pathname url))
      && negb (test reExpanders (pathname url))
      && negb (test reBugAssist (pathname url))
      && negb (test reDfn (pathname url))
      && negb (test reSectionLinks (pathname url))
      && negb (test reWebidl (pathname url))) = true
  <-> pathname url = autolink
      \/ (under url options /\ ~ denied (pathname url)).
Proof.
  pose proof (startsWith_spec (href url)
                (referrerDirectory (referrer options))) as Hunder.
  pose proof (deny_list (pathname url)) as Hdeny.
  pose proof (eqs_eq (pathname url) autolink) as Hauto.
  fold (under url options) in Hunder. fold autolink.
  destruct (eqs (pathname url) autolink),
    (startsWith (href url) (referrerDirectory (referrer options))),
    (test reAnnotateSpec (pathname url)), (test reExpanders (pathname url)),
    (test reBugAssist (pathname url)), (test reDfn (pathname url)),
    (test reSectionLinks (pathname url)), (test reWebidl (pathname url));
    simpl in *; intuition congruence.
Qed.

(** The last index of a character. *)
Lemma lastIndexFrom_spec (c : N) : forall s i found,
  (~ In c s /\ lastIndexFrom s [c] i found = found)
  \/ (exists u v,
         s = u ++ c :: v /\ ~ In c v
         /\ lastIndexFrom s [c] i found = (i + Z.of_nat (length u))%Z).
Proof.
  induction s as [|x s IH]; intros i found.
  - left. split; [intros []|reflexivity].
  - cbn [lastIndexFrom startsWith]. rewrite andb_true_r.
    destruct (IH (i + 1)%Z (if N.eqb x c then i else found))
      as [[Hnot Hres]|(u & v & -> & Hv & Hres)].
    + destruct (N.eqb_spec x c) as [->|Hx].
      * right. exists [], s. rewrite Hres. simpl.
        rewrite Z.add_0_r. auto.
      * left. rewrite Hres. split; [|reflexivity].
        intros [E|E]; [congruence|contradiction].
    + right. exists (x :: u), v. rewrite Hres.
      repeat split; [exact Hv|]. simpl length. lia.
Qed.

(** The directory of the referrer: the referrer up to its last "/",
    or nothing when it has none. *)
Lemma referrerDirectory_spec (r : jsstring) :
  exists file,
    r = referrerDirectory r ++ file
    /\ ~ In 47%N file
    /\ (referrerDirectory r = [] \/ endsIn (referrerDirectory r) "/").
Proof.
  unfold referrerDirectory.
  destruct (endsWith r (lit "/")) eqn:E; cbn [negb].
  - exists []. rewrite app_nil_r. split; [reflexivity|].
    split; [intros []|]. right. apply endsWith_spec, E.
  - unfold lastIndexOf.
    destruct (lastIndexFrom_spec 47 r 0 (-1))
      as [[Hnot Hres]|(u & v & -> & Hv & Hres)];
      change (lit "/") with [47%N]; rewrite Hres.
    + exists r. split; [reflexivity|]. split; [exact Hnot|]. left.
      reflexivity.
    + exists v. unfold substring, clamp.
      replace (Z.to_nat (0 + Z.of_nat (length u) + 1)) with (S (length u))
        by lia.
      rewrite length_app. cbn [length Z.to_nat].
      replace (Nat.min (S (length u)) (length u + S (length v)))
        with (S (length u)) by lia.
      cbn [Nat.min Nat.max Nat.sub skipn].
      replace (S (length u)) with (length (u ++ [47%N]))
        by (rewrite length_app; simpl; lia).
      replace (u ++ 47%N :: v) with ((u ++ [47%N]) ++ v)
        by (rewrite <- app_assoc; reflexivity).
      rewrite firstn_app, firstn_all, Nat.sub_diag. cbn [firstn].
      rewrite app_nil_r.
      split; [reflexivity|]. split; [exact Hv|]. right.
      exists u. reflexivity.
Qed.




(** ** Replacing the leftmost match *)





Lemma replace_none r t s : test r s = false -> replace r t s = s.
Proof.
  unfold test, replace. destruct (exec r s) as [[[i e] g]|];
    [discriminate|reflexivity].
Qed.




(** ** Literal text and quantifiers *)










(** ** The profile of ReSpec *)





















(** ** Replacing every occurrence of a literal text *)













Section Substitution.
Variables (a : N) (w' t' : jsstring).
Let w := a :: w'.
Let t := a :: t'.



End Substitution.

(** ** The tweaks of ReSpec *)




(** ** Examples *)

Example split_content :
  split (lit "0; http://example.org/b") 59 =
  [lit "0"; lit " http://example.org/b"].
Proof. reflexivity. Qed.

Example trim_target :
  trim (lit "  http://example.org/b ") = lit "http://example.org/b".
Proof. reflexivity. Qed.

Example directory_of_referrer :
  referrerDirectory (lit "https://example.org/spec/Overview.html") =
  lit "https://example.org/spec/"
  /\ referrerDirectory (lit "about:blank") = [].
Proof. split; reflexivity. Qed.

(** A style sheet is skipped, a script next to the document is fetched,
    a script of the deny list is skipped, a script with a query string
    does not end in [.js] and is skipped. *)
Example gate_decisions :
  let options := mkOptions (lit "https://example.org/spec/Overview.html") in
  let at_path (p : string) :=
    getUrlToFetch (mkUrl (lit "https://example.org" ++ lit p) (lit p) (lit p))
                  options in
  at_path "/spec/base.css"%string = None
  /\ at_path "/spec/script.js"%string =
     Some (lit "https://example.org/spec/script.js")
  /\ at_path "/spec/data.json"%string =
     Some (lit "https://example.org/spec/data.json")
  /\ at_path "/spec/dfn.js"%string = None
  /\ at_path "/other/script.js"%string = None
  /\ at_path "/webcomponents/assets/scripts/autolink.js"%string =
     Some (lit "https://example.org/webcomponents/assets/scripts/autolink.js")
  /\ at_path "/spec/respec-w3c-common.js"%string = Some respecUrl
  /\ getUrlToFetch (mkUrl (lit "https://example.org/spec/script.js?v=1")
                          (lit "/spec/script.js?v=1")
                          (lit "/spec/script.js")) options = None.
Proof. repeat split; vm_compute; reflexivity. Qed.

(** The tweaks on a text in the manner of ReSpec. *)
Example tweaks_of_a_profile :
  tweakRespec
    (lit "define(" ++ quoted "profile-w3c-common" ++ lit ",[" ++
     quoted "core/base-runner" ++ lit "," ++ quoted "core/highlight" ++
     lit "," ++ quoted "core/ui" ++
     lit "],function(){});@keyframes pop { }@supports (display: grid) { }a.innerText=b;document.body.innerText;")
  = lit "define(" ++ quoted "profile-w3c-common" ++ lit ",[" ++
    quoted "core/base-runner" ++ lit "," ++ quoted "core/ui" ++
    lit "],function(){});@media all { }@media all { }a.textContent=b;document.body.textContent;".
Proof. vm_compute. reflexivity. Qed.

(** The promise of a ReSpec source: resolved by a run of the hooks at
    12 s, rejected by the timer when the hooks run at 31 s. *)
Example detection_on_the_clock :
  let w := settled (Fixture.stuckRespec (lit "http://example.org/")) in
  let d := getDocumentAndGenerator w in
  promise (at_time d (Some 12000%N) 11999%N) = Pending
  /\ promise (at_time d (Some 12000%N) 12000%N) =
     Resolved (mkResult (document w) (Some (lit "respec")))
  /\ promise (at_time d (Some 12000%N) 40000%N) =
     Resolved (mkResult (document w) (Some (lit "respec")))
  /\ promise (at_time d (Some 31000%N) 29999%N) = Pending
  /\ promise (at_time d (Some 31000%N) 40000%N) = Rejected timeoutError.
Proof. repeat split; vm_compute; reflexivity. Qed.

(** * Further properties *)

Import Api.

(** ** The course of a resolution *)

Lemma followLinks_cases h loadNext window links url responseUrl :
  followLinks h loadNext window links url responseUrl = ret window
  \/ exists t,
       t <> url /\ t <> responseUrl
       /\ followLinks h loadNext window links url responseUrl = loadNext t.
Proof.
  induction links as [|l links IH]; simpl; [left; reflexivity|].
  destruct (isSinglePageText _); [|exact IH].
  destruct (eqs _ url) eqn:E1; [left; reflexivity|].
  destruct (eqs _ responseUrl) eqn:E2; [left; reflexivity|].
  right. eexists. repeat split; [apply eqs_neq, E1|apply eqs_neq, E2].
Qed.

(** What [loadSpecificationFromHtml] comes to: the rendering fails or
    stays pending; or the window is returned, nothing fetched; or the
    resolution goes on with a target that is neither of the two URLs. *)
Lemma loadHtml_cases h polls loadNext spec :
  let url := orElse (url spec) (lit "about:blank") in
  let responseUrl := orElse (responseUrl spec) url in
  let promise := render h polls (orElse (html spec) []) responseUrl in
  (exists e, promise = Rejected e
             /\ loadHtml h polls loadNext spec = mkRun [] (Rejected e))
  \/ (promise = Pending /\ loadHtml h polls loadNext spec = mkRun [] Pending)
  \/ (exists w, promise = Resolved w
                /\ loadHtml h polls loadNext spec = ret w)
  \/ (exists w t, promise = Resolved w
                  /\ t <> url /\ t <> responseUrl
                  /\ loadHtml h polls loadNext spec = loadNext t).
Proof.
  intros url responseUrl promise. unfold loadHtml.
  fold url. fold responseUrl. fold promise.
  destruct promise as [w|e|].
  - rewrite bind_resolved.
    destruct (metaRedirect h (document w) url responseUrl) as [t|] eqn:E.
    + right. right. right. apply metaRedirect_differs in E as [E1 E2].
      exists w, t. auto.
    + destruct (followLinks_cases h loadNext w (headLinks (document w))
                                  url responseUrl)
        as [H|(t & H1 & H2 & H)]; rewrite H.
      * right. right. left. exists w. auto.
      * right. right. right. exists w, t. auto.
  - left. exists e. auto.
  - right. left. auto.
Qed.

(** Induction along the calls of [loadSpecificationFromUrl]. *)
Lemma loader_ind (h : Host) (polls : nat)
      (P : option jsstring -> option nat -> Run Window -> Prop) :
  (forall url counter, 5 <= orZero counter ->
                       P url counter (mkRun [] (Rejected loopError))) ->
  (forall url counter e,
      orZero counter < 5 -> baseFetch h url = inl e ->
      P url counter (mkRun [url] (Rejected e))) ->
  (forall url counter response,
      orZero counter < 5 -> baseFetch h url = inr response ->
      (forall t,
          P (Some t) (Some (orZero counter + 1))
            (loadSpecificationFromUrl h polls (Some t)
                                      (Some (orZero counter + 1)))) ->
      let next :=
        loadSpecificationFromHtml h polls
          (mkSpec url (Some (response_text response))
                  (Some (response_url response))) counter in
      P url counter (mkRun (url :: fetched next) (outcome next))) ->
  forall url counter,
    P url counter (loadSpecificationFromUrl h polls url counter).
Proof.
  intros Hloop Hfail Hnext.
  assert (Hk : forall k url counter,
             5 - orZero counter <= k ->
             P url counter (loadSpecificationFromUrl h polls url counter)).
  { induction k as [|k IH]; intros url counter Hc;
      rewrite loadSpecificationFromUrl_eq;
      destruct (5 <=? orZero counter) eqn:E.
    - apply Hloop. apply Nat.leb_le, E.
    - apply Nat.leb_gt in E. lia.
    - apply Hloop. apply Nat.leb_le, E.
    - apply Nat.leb_gt in E. unfold fetch.
      destruct (baseFetch h url) as [e|response] eqn:Ef.
      + apply Hfail; assumption.
      + unfold bind at 1 2. cbn [outcome fetched ret app].
        apply (Hnext url counter response E Ef).
        intros t. apply IH.
        change (5 - (orZero counter + 1) <= k). lia. }
  intros url counter. apply (Hk (5 - orZero counter)). lia.
Qed.

Lemma loadHtml_bound h polls loadNext spec n :
  (forall t, length (fetched (loadNext t)) <= n) ->
  length (fetched (loadHtml h polls loadNext spec)) <= n.
Proof.
  intros Hnext.
  destruct (loadHtml_cases h polls loadNext spec)
    as [(e & _ & H)|[(_ & H)|[(w & _ & H)|(w & t & _ & _ & _ & H)]]];
    rewrite H; simpl; try lia. apply Hnext.
Qed.

Lemma loadSpecificationFromUrl_bound (h : Host) (polls : nat) :
  forall url counter,
    length (fetched (loadSpecificationFromUrl h polls url counter))
    <= 5 - orZero counter.
Proof.
  apply (loader_ind h polls
           (fun _ counter run => length (fetched run) <= 5 - orZero counter)).
  - intros url counter Hc. cbn [fetched length]. lia.
  - intros url counter e Hc _. cbn [fetched length]. lia.
  - intros url counter response Hc _ IH next. cbn [fetched length].
    assert (length (fetched next) <= 5 - (orZero counter + 1)).
    { apply loadHtml_bound. intros t. apply (IH t). }
    lia.
Qed.

(** X1.  A resolution asks for five documents at most, whatever the
    pages say.  Counting the calls of [fetch] that the loaders make
    themselves, one per document, and not what JSDOM loads while it
    renders: [loadSpecificationFromUrl] with counter [c] makes at most
    [5 - c] of them, [loadSpecificationFromHtml] at most [4 - c], and so
    [loadSpecification] and [urlOrDom] at most five; a window given to
    [urlOrDom] costs none. *)
Theorem fetch_bound (h : Host) (polls : nat) :
  (forall url counter,
      length (fetched (loadSpecificationFromUrl h polls url counter))
      <= 5 - orZero counter)
  /\ (forall spec counter,
         length (fetched (loadSpecificationFromHtml h polls spec counter))
         <= 4 - orZero counter)
  /\ (forall arg, length (fetched (loadSpecification h polls arg)) <= 5)
  /\ (forall input, length (fetched (urlOrDom h polls input)) <= 5)
  /\ (forall w, fetched (urlOrDom h polls (InWindow w)) = []).
Proof.
  assert (Hhtml : forall spec counter,
             length (fetched (loadSpecificationFromHtml h polls spec counter))
             <= 4 - orZero counter).
  { intros spec counter.
    replace (4 - orZero counter) with (5 - (orZero counter + 1)) by lia.
    apply loadHtml_bound. intros t.
    apply (loadSpecificationFromUrl_bound h polls (Some t)). }
  assert (Hspec : forall arg,
             length (fetched (loadSpecification h polls arg)) <= 5).
  { intros arg. unfold loadSpecification.
    match goal with
    | |- context [if ?b then _ else _] => destruct b
    end.
    - pose proof (Hhtml
                    match arg with
                    | OfUrl u => mkSpec (Some u) None None
                    | OfSpec spec => spec
                    end None) as H.
      cbn [orZero] in H. lia.
    - match goal with
      | |- context [loadSpecificationFromUrl h polls ?u None] =>
          pose proof (loadSpecificationFromUrl_bound h polls u None) as H
      end.
      cbn [orZero] in H. lia. }
  split; [apply loadSpecificationFromUrl_bound|].
  split; [exact Hhtml|]. split; [exact Hspec|].
  split; [|reflexivity].
  intros [u|w]; cbn [urlOrDom]; [apply Hspec|cbn; lia].
Qed.

Lemma chain_firstn h polls n : forall rest a,
  chain h polls a rest = true -> chain h polls a (firstn n rest) = true.
Proof.
  induction n as [|n IH]; intros rest a H; [reflexivity|].
  destruct rest as [|b rest]; [reflexivity|]. simpl in H |- *.
  apply andb_true_iff in H as [H1 H2]. rewrite H1. apply IH, H2.
Qed.

(** X2.  Along a chain of meta refreshes that ends on a page without
    further redirect, the resolution succeeds when the chain has at most
    four redirections, with every page fetched once and in order, and is
    rejected with the infinite loop error after five fetches when the
    chain has five redirections or more. *)
Theorem chain_boundary (h : Host) (polls : nat) (a : jsstring)
        (rest : list jsstring) :
  chain h polls a rest = true ->
  (forall w,
      final h polls (last rest a) = Some w ->
      length rest <= 4 ->
      loadSpecificationFromUrl h polls (Some a) None =
      mkRun (map Some (a :: rest)) (Resolved w))
  /\ (5 <= length rest ->
      loadSpecificationFromUrl h polls (Some a) None =
      mkRun (map Some (firstn 5 (a :: rest))) (Rejected loopError)).
Proof.
  intros Hchain.
  assert (Hstart : loadSpecificationFromUrl h polls (Some a) None =
                   loadSpecificationFromUrl h polls (Some a) (Some 0)).
  { rewrite !loadSpecificationFromUrl_eq. reflexivity. }
  split.
  - intros w Hfinal Hlen.
    rewrite Hstart, (follow_chain h polls rest a 0 Hchain) by lia.
    rewrite (land_final h polls _ w _ Hfinal) by (simpl; lia).
    unfold after. cbn [fetched outcome]. f_equal.
    change [Some (last rest a)] with (map Some [last rest a]).
    rewrite <- map_app. f_equal.
    rewrite <- (last_cons rest a a).
    symmetry. apply app_removelast_last. discriminate.
  - intros Hlen.
    rewrite Hstart.
    rewrite (follow_chain h polls (firstn 5 rest) a 0
               (chain_firstn h polls 5 rest a Hchain))
      by (rewrite length_firstn; lia).
    rewrite length_firstn, Nat.min_l by exact Hlen.
    rewrite loadSpecificationFromUrl_eq. cbn [orZero Nat.add Nat.leb].
    unfold after, reject. cbn [fetched outcome]. rewrite app_nil_r.
    f_equal. f_equal.
    change (a :: firstn 5 rest) with (firstn 6 (a :: rest)).
    apply removelast_firstn. simpl. lia.
Qed.

Lemma chain_boundary_witness :
  loadSpecificationFromUrl Fixture.host 0
    (Some (lit "http://example.org/2")) None =
  mkRun (map Some [lit "http://example.org/2"; lit "http://example.org/3";
                   lit "http://example.org/4"; lit "http://example.org/5";
                   lit "http://example.org/6"])
        (Resolved (mkWindow (Fixture.blank (lit "http://example.org/6")
                                           (lit "Hi")) None)).
Proof.
  refine (proj1 (chain_boundary Fixture.host 0 (lit "http://example.org/2")
                   [lit "http://example.org/3"; lit "http://example.org/4";
                    lit "http://example.org/5"; lit "http://example.org/6"]
                   _) _ _ _).
  - vm_compute. reflexivity.
  - vm_compute. reflexivity.
  - simpl. lia.
Defined.

(** X3.  When a resolution by URL succeeds, its window is the rendering
    of the answer to the last URL fetched. *)
Theorem resolved_from_last_fetch (h : Host) (polls : nat)
        (url : option jsstring) (counter : option nat) (w : Window) :
  outcome (loadSpecificationFromUrl h polls url counter) = Resolved w ->
  exists pre u response,
    fetched (loadSpecificationFromUrl h polls url counter) = pre ++ [u]
    /\ baseFetch h u = inr response
    /\ render h polls (orElse (Some (response_text response)) [])
              (orElse (Some (response_url response))
                      (orElse u (lit "about:blank")))
       = Resolved w.
Proof.
  revert w.
  apply (loader_ind h polls
           (fun _ _ run =>
              forall w, outcome run = Resolved w ->
                exists pre u response,
                  fetched run = pre ++ [u]
                  /\ baseFetch h u = inr response
                  /\ render h polls (orElse (Some (response_text response)) [])
                            (orElse (Some (response_url response))
                                    (orElse u (lit "about:blank")))
                     = Resolved w)).
  - intros _ _ _ w H. discriminate.
  - intros u c e _ _ w H. discriminate.
  - intros u c response Hc Hfetch IH next w. cbn [fetched outcome].
    unfold next, loadSpecificationFromHtml.
    match goal with
    | |- context [loadHtml h polls ?f ?s] =>
        destruct (loadHtml_cases h polls f s)
          as [(e & _ & H)|[(_ & H)|[(w' & Hr & H)|(w' & t & _ & _ & _ & H)]]];
          rewrite H
    end; cbn [fetched outcome ret].
    + discriminate.
    + discriminate.
    + intros [= <-]. exists [], u, response. auto.
    + intros Hw. destruct (IH t w Hw) as (pre & u' & r' & Hf & Hb & Hr).
      exists (u :: pre), u', r'. rewrite Hf. auto.
Qed.

Lemma resolved_from_last_fetch_witness :
  exists pre u response,
    fetched (loadSpecificationFromUrl Fixture.host 0
               (Some (lit "http://example.org/a")) None) = pre ++ [u]
    /\ baseFetch Fixture.host u = inr response
    /\ render Fixture.host 0 (orElse (Some (response_text response)) [])
              (orElse (Some (response_url response))
                      (orElse u (lit "about:blank")))
       = Resolved (mkWindow (Fixture.blank (lit "http://example.org/d")
                                           (lit "Hi")) None).
Proof.
  apply (resolved_from_last_fetch Fixture.host 0
           (Some (lit "http://example.org/a")) None).
  vm_compute. reflexivity.
Defined.

(** X4.  A redirect never leads back to the document it comes from: in
    the sequence of documents that [loadSpecificationFromUrl] asks for,
    a document asked for after another one has a URL that differs from
    the URL of the one before it and from the URL that the answer to
    that one reports. *)
Theorem no_immediate_refetch (h : Host) (polls : nat)
        (url : option jsstring) (counter : option nat)
        (pre post : list (option jsstring)) (a b : option jsstring) :
  fetched (loadSpecificationFromUrl h polls url counter)
  = pre ++ a :: b :: post ->
  exists t response,
    b = Some t
    /\ baseFetch h a = inr response
    /\ t <> orElse a (lit "about:blank")
    /\ t <> orElse (Some (response_url response))
                   (orElse a (lit "about:blank")).
Proof.
  revert pre post a b.
  enough (H : (fetched (loadSpecificationFromUrl h polls url counter) = []
               \/ exists tl,
                  fetched (loadSpecificationFromUrl h polls url counter)
                  = url :: tl)
              /\ forall pre post a b,
                  fetched (loadSpecificationFromUrl h polls url counter)
                  = pre ++ a :: b :: post ->
                  exists t response,
                    b = Some t
                    /\ baseFetch h a = inr response
                    /\ t <> orElse a (lit "about:blank")
                    /\ t <> orElse (Some (response_url response))
                                   (orElse a (lit "about:blank")))
    by exact (proj2 H).
  apply (loader_ind h polls
           (fun url _ run =>
              (fetched run = [] \/ exists tl, fetched run = url :: tl)
              /\ forall pre post a b,
                  fetched run = pre ++ a :: b :: post ->
                  exists t response,
                    b = Some t
                    /\ baseFetch h a = inr response
                    /\ t <> orElse a (lit "about:blank")
                    /\ t <> orElse (Some (response_url response))
                                   (orElse a (lit "about:blank")))).
  - intros u c _. split; [left; reflexivity|].
    intros [|x pre] post a b H; discriminate.
  - intros u c e _ _. split; [right; exists []; reflexivity|].
    intros [|x [|y pre]] post a b H; discriminate.
  - intros u c response Hc Hfetch IH next. cbn [fetched].
    split; [right; eexists; reflexivity|].
    unfold next, loadSpecificationFromHtml.
    match goal with
    | |- context [loadHtml h polls ?f ?s] =>
        destruct (loadHtml_cases h polls f s)
          as [(e & _ & H)|[(_ & H)|[(w' & _ & H)|(w' & t & _ & Hu & Hr & H)]]];
          rewrite H
    end; cbn [fetched ret].
    1-3: intros [|x [|y pre]] post a b E; discriminate.
    destruct (IH t) as [Hhead Htail].
    intros [|x pre] post a b E.
    + injection E as <- E.
      destruct Hhead as [Hn|(tl & Hn)]; rewrite Hn in E; [discriminate|].
      injection E as <- _. exists t, response. auto.
    + injection E as _ E. exact (Htail pre post a b E).
Qed.

Lemma no_immediate_refetch_witness :
  exists t response,
    Some (lit "http://example.org/c") = Some t
    /\ baseFetch Fixture.host (Some (lit "http://example.org/b"))
       = inr response
    /\ t <> orElse (Some (lit "http://example.org/b")) (lit "about:blank")
    /\ t <> orElse (Some (response_url response))
                   (orElse (Some (lit "http://example.org/b"))
                           (lit "about:blank")).
Proof.
  apply (no_immediate_refetch Fixture.host 0
           (Some (lit "http://example.org/a")) None
           [Some (lit "http://example.org/a")]
           [Some (lit "http://example.org/d")]).
  vm_compute. reflexivity.
Defined.




(** ** More polls change nothing that has settled *)

Lemma resolveWhenReady_more r : forall n m run,
  n <= m ->
  resolveWhenReady r n run <> Pending ->
  resolveWhenReady r m run = resolveWhenReady r n run.
Proof.
  induction n as [|n IH]; intros m run Hle Hn.
  - destruct m as [|m]; [reflexivity|].
    cbn [resolveWhenReady] in Hn |- *.
    destruct (respecIsReady r run) as [[| |]|]; try reflexivity.
    destruct (usesRespec (onLoad r)); [contradiction|reflexivity].
  - destruct m as [|m]; [lia|].
    cbn [resolveWhenReady] in Hn |- *.
    destruct (respecIsReady r run) as [[| |]|]; try reflexivity.
    destruct (usesRespec (onLoad r)); [|reflexivity].
    apply IH; [lia|exact Hn].
Qed.

Lemma render_more h n m html responseUrl :
  n <= m ->
  render h n html responseUrl <> Pending ->
  render h m html responseUrl = render h n html responseUrl.
Proof.
  unfold render. intros Hle.
  destruct (JSDOM h _ responseUrl) as [e|r]; [reflexivity|].
  apply resolveWhenReady_more, Hle.
Qed.

Lemma followLinks_more h ln lm window url responseUrl : forall links,
  (forall t, outcome (ln t) <> Pending -> lm t = ln t) ->
  outcome (followLinks h ln window links url responseUrl) <> Pending ->
  followLinks h lm window links url responseUrl
  = followLinks h ln window links url responseUrl.
Proof.
  intros links Hnext. induction links as [|link links IH]; intros Hn.
  - reflexivity.
  - cbn [followLinks] in Hn |- *.
    destruct (isSinglePageText _); [|exact (IH Hn)].
    destruct (_ || _); [reflexivity|]. apply Hnext, Hn.
Qed.

Lemma loadHtml_more h n m ln lm spec :
  n <= m ->
  (forall t, outcome (ln t) <> Pending -> lm t = ln t) ->
  outcome (loadHtml h n ln spec) <> Pending ->
  loadHtml h m lm spec = loadHtml h n ln spec.
Proof.
  intros Hle Hnext. unfold loadHtml.
  set (url := orElse (Loader.url spec) (lit "about:blank")).
  set (responseUrl := orElse (Loader.responseUrl spec) url).
  set (html := orElse (Loader.html spec) []).
  pose proof (render_more h n m html responseUrl Hle) as Hr.
  destruct (render h n html responseUrl) as [w|e|] eqn:E.
  - rewrite Hr by discriminate. rewrite !bind_resolved.
    destruct (metaRedirect h (document w) url responseUrl) as [t|].
    + apply Hnext.
    + apply followLinks_more, Hnext.
  - rewrite Hr by discriminate. reflexivity.
  - rewrite bind_pending. cbn [outcome]. contradiction.
Qed.

(** X6.  Waiting longer changes nothing that has settled: when a
    resolution by URL is resolved or rejected once [n] timers of the
    ReSpec poll have fired, it has asked for the same documents and
    ended the same way once any larger number of them has fired. *)
Theorem settled_is_final (h : Host) (n m : nat)
        (url : option jsstring) (counter : option nat) :
  n <= m ->
  outcome (loadSpecificationFromUrl h n url counter) <> Pending ->
  loadSpecificationFromUrl h m url counter
  = loadSpecificationFromUrl h n url counter.
Proof.
  intros Hle.
  apply (loader_ind h n
           (fun url counter run =>
              outcome run <> Pending ->
              loadSpecificationFromUrl h m url counter = run)).
  - intros u c Hc _. rewrite loadSpecificationFromUrl_eq.
    destruct (Nat.leb_spec 5 (orZero c)); [reflexivity|lia].
  - intros u c e Hc Hfetch _. rewrite loadSpecificationFromUrl_eq.
    destruct (Nat.leb_spec 5 (orZero c)); [lia|].
    unfold fetch. rewrite Hfetch. reflexivity.
  - intros u c response Hc Hfetch IH next Hn.
    rewrite loadSpecificationFromUrl_eq.
    destruct (Nat.leb_spec 5 (orZero c)); [lia|].
    unfold fetch. rewrite Hfetch.
    cbn [outcome] in Hn.
    assert (E : loadHtml h m
                  (fun target =>
                     loadSpecificationFromUrl h m (Some target)
                                              (Some (orZero c + 1)))
                  (mkSpec u (Some (response_text response))
                          (Some (response_url response)))
                = next).
    { apply loadHtml_more; [exact Hle| |exact Hn].
      intros t Ht. apply (IH t Ht). }
    unfold loadSpecificationFromHtml.
    unfold bind at 2. cbn [fetched outcome ret app].
    unfold bind. cbn [fetched outcome].
    rewrite E. reflexivity.
Qed.

(** On a ReSpec source that is ready at the second poll, the promise is
    pending after one timer, and the same resolved promise after two
    timers and after seven. *)
Lemma settled_is_final_witness :
  let url := Some (lit "http://example.org/respec") in
  outcome (loadSpecificationFromUrl Generation.host 1 url None) = Pending
  /\ outcome (loadSpecificationFromUrl Generation.host 2 url None)
     = Resolved (settled (Generation.rendering
                            (lit "http://example.org/respec")))
  /\ loadSpecificationFromUrl Generation.host 7 url None
     = loadSpecificationFromUrl Generation.host 2 url None.
Proof.
  split; [vm_compute; reflexivity|].
  split; [vm_compute; reflexivity|].
  apply (settled_is_final Generation.host 2 7).
  - lia.
  - vm_compute. discriminate.
Defined.

(** ** The fields of a meta refresh *)

Lemma split_nonempty (s : jsstring) (c : N) : split s c <> [].
Proof.
  destruct s as [|x s]; simpl; [discriminate|].
  destruct (N.eqb x c); [discriminate|].
  destruct (split s c); discriminate.
Qed.

Lemma split_free (s : jsstring) (c : N) : ~ In c s -> split s c = [s].
Proof.
  induction s as [|x s IH]; intros Hc; simpl; [reflexivity|].
  destruct (N.eqb_spec x c) as [->|Hx]; [exfalso; apply Hc; left; reflexivity|].
  rewrite IH; [reflexivity|]. intros H. apply Hc. right. exact H.
Qed.

Lemma split_field (a s : jsstring) (c : N) :
  ~ In c a -> split (a ++ c :: s) c = a :: split s c.
Proof.
  induction a as [|x a IH]; intros Hc; simpl.
  - rewrite N.eqb_refl. reflexivity.
  - destruct (N.eqb_spec x c) as [->|Hx];
      [exfalso; apply Hc; left; reflexivity|].
    rewrite IH; [reflexivity|]. intros H. apply Hc. right. exact H.
Qed.

(** X7.  The target of a meta refresh is the text between the first
    semicolon of its content and the second one, or the end of the
    content: what follows a second semicolon is ignored, so that a target
    with a semicolon in it is cut there.  A content without semicolon,
    or no content at all, redirects nowhere. *)
Theorem refresh_target_field (h : Host) (doc : Document)
        (url responseUrl : jsstring) :
  (forall delay target tail,
      metaRefresh doc = Some (Some (delay ++ 59%N :: target ++ tail)) ->
      ~ In 59%N delay ->
      ~ In 59%N target ->
      target <> [] ->
      tail = [] \/ (exists rest, tail = 59%N :: rest) ->
      metaRedirect h doc url responseUrl =
      let t := URL_resolve h (baseURI doc) (trim target) in
      if negb (eqs t url) && negb (eqs t responseUrl) then Some t else None)
  /\ (forall content,
         metaRefresh doc = Some content ->
         ~ In 59%N (orElse content []) ->
         metaRedirect h doc url responseUrl = None).
Proof.
  split.
  - intros delay target tail Hmeta Hdelay Htarget Hne Htail.
    apply (metaRedirect_field h doc url responseUrl
             (Some (delay ++ 59%N :: target ++ tail)) target Hmeta);
      [|exact Hne].
    assert (Ho : orElse (Some (delay ++ 59%N :: target ++ tail)) []
                 = delay ++ 59%N :: target ++ tail).
    { destruct delay; reflexivity. }
    rewrite Ho, (split_field delay (target ++ tail) 59%N Hdelay).
    cbn [nth_error].
    destruct Htail as [->|(rest & ->)].
    + rewrite app_nil_r, (split_free target 59%N Htarget). reflexivity.
    + rewrite (split_field target rest 59%N Htarget). reflexivity.
  - intros content Hmeta Hfree.
    apply (metaRedirect_no_field h doc url responseUrl content Hmeta).
    left. rewrite (split_free _ 59%N Hfree). reflexivity.
Qed.

Lemma refresh_target_field_witness :
  metaRedirect Fixture.host
    (mkDocument None [] false false (Some (Some (lit "0;/b;c=1"))) []
                (lit "http://example.org/a") [])
    (lit "http://example.org/a") (lit "http://example.org/a")
  = Some (lit "/b").
Proof.
  refine (proj1 (refresh_target_field Fixture.host
                   (mkDocument None [] false false
                               (Some (Some (lit "0;/b;c=1"))) []
                               (lit "http://example.org/a") [])
                   (lit "http://example.org/a") (lit "http://example.org/a"))
                (lit "0") (lit "/b") (lit ";c=1") _ _ _ _ _).
  - reflexivity.
  - simpl. intros [H|[]]. discriminate.
  - simpl. intros [H|[H|[]]]; discriminate.
  - discriminate.
  - right. exists (lit "c=1"). reflexivity.
Defined.

(** ** The detection, from the call on *)

Lemma runHooks_not_rejected hs : forall d,
  (forall e, promise d <> Rejected e) ->
  forall e, promise (fold_left runHook hs d) <> Rejected e.
Proof.
  induction hs as [|hook hs IH]; intros d Hd; simpl; [exact Hd|].
  apply IH. destruct hook; simpl; [exact Hd|].
  intros e. pose proof (Hd e) as He.
  destruct (promise d); simpl; congruence.
Qed.

Lemma detection_not_rejected (w : Window) (e : Error) :
  promise (getDocumentAndGenerator w) <> Rejected e.
Proof.
  unfold getDocumentAndGenerator.
  repeat match goal with
         | |- context [if ?b then _ else _] => destruct b
         end; discriminate.
Qed.

Lemma steps_rejected evs : forall d e,
  (forall e', promise d <> Rejected e') ->
  promise (fold_left step evs d) = Rejected e ->
  e = timeoutError /\ In Timer evs.
Proof.
  induction evs as [|ev evs IH]; intros d e Hd He; simpl in He.
  - exfalso. apply (Hd e), He.
  - destruct ev.
    + destruct (IH _ e (runHooks_not_rejected (hooks (window d)) d Hd) He)
        as [H1 H2].
      split; [exact H1|right; exact H2].
    + split; [|left; reflexivity].
      cbn [step] in He. destruct (timeout d); [|apply (IH d e Hd He)].
      destruct (promise d) as [r|e0|] eqn:E; cbn [settle] in He.
      * apply (IH _ e) in He; [apply He|]. intros e'. simpl. discriminate.
      * exfalso. exact (Hd e0 eq_refl).
      * rewrite steps_settled in He by (simpl; discriminate).
        simpl in He. injection He as <-. reflexivity.
Qed.

(** X8.  What a call of [getDocumentAndGenerator] leaves behind: the
    document is untouched; the window is the one given unless the promise
    is pending, in which case it has gained exactly the one hook; the
    timer of 30 s is set when the promise is pending and only then; and
    the promise is never rejected by the call itself. *)
Theorem detection_footprint (w : Window) :
  let d := getDocumentAndGenerator w in
  document (window d) = document w
  /\ (promise d <> Pending -> window d = w /\ timeout d = None)
  /\ (promise d = Pending ->
      timeout d = Some 30000%N
      /\ hooks (window d) = hooks w ++ [ResolveRespec])
  /\ (forall e, promise d <> Rejected e)
  /\ (forall r, promise d = Resolved r -> doc r = document w).
Proof.
  unfold getDocumentAndGenerator.
  destruct (match metaGenerator (document w) with
            | Some content => test reBikeshed content
            | None => false
            end);
    [cbn; repeat split; try discriminate; try congruence;
     intros r [= <-]; reflexivity|].
  destruct (eqs (bodyId (document w)) (lit "respecDocument"));
    [cbn; repeat split; try discriminate; try congruence;
     intros r [= <-]; reflexivity|].
  destruct (respecConfig w) as [config|] eqn:Hc.
  - destruct (headRespecScript (document w)).
    + cbn [window promise timeout]. split; [apply document_push|].
      split; [intros H; contradiction|].
      split; [intros _; split; [reflexivity|]|split; discriminate].
      apply hooks_push. rewrite Hc. discriminate.
    + destruct (anolisReferences (document w));
        cbn; repeat split; try discriminate; try congruence;
        intros r [= <-]; reflexivity.
  - destruct (anolisReferences (document w));
      cbn; repeat split; try discriminate; try congruence;
      intros r [= <-]; reflexivity.
Qed.

(** X9.  The promise of a detection settles once: after the events that
    settle it, no run of the hooks and no timer changes it.  Its only
    rejection is the timeout error, and it needs the timer to fire. *)
Theorem detection_settles_once (w : Window) (evs : list Event) :
  let d := getDocumentAndGenerator w in
  (promise (fold_left step evs d) <> Pending ->
   forall evs',
     promise (fold_left step (evs ++ evs') d) = promise (fold_left step evs d))
  /\ (forall e,
         promise (fold_left step evs d) = Rejected e ->
         e = timeoutError /\ In Timer evs).
Proof.
  intros d. split.
  - intros Hs evs'. rewrite fold_left_app. apply steps_settled, Hs.
  - intros e He. apply (steps_rejected evs d e); [|exact He].
    intros e'. apply detection_not_rejected.
Qed.

Lemma detection_settles_once_witness :
  let w := settled (Fixture.stuckRespec (lit "http://example.org/")) in
  promise (fold_left step ([Timer] ++ [PostProcess; Timer])
                     (getDocumentAndGenerator w))
  = promise (fold_left step [Timer] (getDocumentAndGenerator w)).
Proof.
  refine (proj1 (detection_settles_once
                   (settled (Fixture.stuckRespec (lit "http://example.org/")))
                   [Timer]) _ [PostProcess; Timer]).
  vm_compute. discriminate.
Defined.

Lemma detection_footprint_witness :
  let w := settled (Fixture.stuckRespec (lit "http://example.org/")) in
  timeout (getDocumentAndGenerator w) = Some 30000%N
  /\ hooks (window (getDocumentAndGenerator w)) = hooks w ++ [ResolveRespec].
Proof.
  refine (proj1 (proj2 (proj2
            (detection_footprint
               (settled (Fixture.stuckRespec (lit "http://example.org/"))))))
            _).
  vm_compute. reflexivity.
Defined.

(** ** What the gate lets through *)

Lemma getUrlToFetch_range (url : Url) (options : Options) (u : jsstring) :
  getUrlToFetch url options = Some u -> u = respecUrl \/ u = href url.
Proof.
  unfold getUrlToFetch.
  repeat match goal with
         | |- context [if ?b then _ else _] => destruct b
         end; intros [= <-] || discriminate; auto.
Qed.

(** X10.  [download] fetches one URL at most, and no other than the
    pinned URL of ReSpec or the URL it is asked for; whatever it skips
    is answered with an empty body and no error; the error of a failed
    fetch reaches the callback as it is, and a fetch that succeeds
    always gives data. *)
Theorem download_footprint (h : Host) (url : Url) (options : Options) :
  download h url options = ([], Data [])
  \/ exists u,
      u <> []
      /\ (u = respecUrl \/ u = href url)
      /\ fst (download h url options) = [Some u]
      /\ match baseFetch h (Some u) with
         | inl e => snd (download h url options) = Failure e
         | inr _ => exists data, snd (download h url options) = Data data
         end.
Proof.
  unfold download.
  destruct (getUrlToFetch url options) as [u|] eqn:G; [|left; reflexivity].
  destruct u as [|c u]; [left; reflexivity|].
  right. exists (c :: u). cbn [truthy negb fst snd].
  split; [discriminate|]. split; [exact (getUrlToFetch_range _ _ _ G)|].
  split; [reflexivity|].
  unfold jsstring in *.
  destruct (baseFetch h (Some (c :: u))) as [e|response]; [reflexivity|].
  destruct (negb (eqs (c :: u) respecUrl)); eexists; reflexivity.
Qed.

Lemma matchAt_prefix_none (u : jsstring) (r : pattern) : forall pos s,
  startsWith s u = false -> matchAt (map chr u ++ r) pos s = None.
Proof.
  induction u as [|y u IH]; intros pos s H; [discriminate|].
  destruct s as [|x s]; [reflexivity|].
  cbn [startsWith] in H. cbn [map app chr matchAt].
  rewrite (N.eqb_sym y x). destruct (N.eqb x y); [|reflexivity].
  apply IH, H.
Qed.

Lemma search_prefix_none (u : jsstring) (r : pattern) : forall s pos,
  includes s u = false -> search (map chr u ++ r) pos s = None.
Proof.
  induction s as [|c s IH]; intros pos H; cbn [includes] in H;
    apply orb_false_iff in H as [H1 H2]; cbn [search];
    rewrite (matchAt_prefix_none u r _ _ H1); [reflexivity|].
  apply IH, H2.
Qed.

Lemma replace_absent (u : jsstring) (r : pattern) (t : replacement)
      (s : jsstring) :
  includes s u = false -> replace (map chr u ++ r) t s = s.
Proof.
  intros H. unfold replace, exec. rewrite search_prefix_none by exact H.
  reflexivity.
Qed.

Lemma replaceAll_absent (u : jsstring) (t : replacement) (s : jsstring) :
  includes s u = false -> replaceAll (map chr u) t s = s.
Proof.
  intros H. unfold replaceAll. cbn [replaceFrom].
  rewrite <- (app_nil_r (map chr u)), search_prefix_none by exact H.
  reflexivity.
Qed.

(** X11.  The tweaks leave alone a script that has none of the texts
    they look for: a body without ["define("], ["@keyframes "],
    ["@supports ("], [".innerText="] and ["body.innerText"] comes out
    as it went in. *)
Theorem tweaks_leave_plain_text (data : jsstring) :
  includes data (lit "define(") = false ->
  includes data (lit "@keyframes ") = false ->
  includes data (lit "@supports (") = false ->
  includes data (lit ".innerText=") = false ->
  includes data (lit "body.innerText") = false ->
  tweakRespec data = data.
Proof.
  intros H1 H2 H3 H4 H5. unfold tweakRespec. cbn [fold_left].
  unfold reProfile.
  unfold str at 1. rewrite (replace_absent _ _ _ _ H1).
  unfold reKeyframes, str at 1. rewrite (replace_absent _ _ _ _ H2).
  unfold reSupports, str at 1. rewrite (replace_absent _ _ _ _ H3).
  unfold reInnerTextSet, str. rewrite (replaceAll_absent _ _ _ H4).
  unfold reBodyInnerText, str. apply (replaceAll_absent _ _ _ H5).
Qed.

Lemma tweaks_leave_plain_text_witness :
  tweakRespec (lit "var body = element.innerText;")
  = lit "var body = element.innerText;".
Proof.
  apply (tweaks_leave_plain_text (lit "var body = element.innerText;"));
    vm_compute; reflexivity.
Defined.

Lemma last_dot_unique (c : N) (ext ext' : jsstring) : forall pre pre',
  ~ In c ext -> ~ In c ext' ->
  pre ++ c :: ext = pre' ++ c :: ext' -> ext = ext'.
Proof.
  induction pre as [|x pre IH]; intros [|y pre'] Hext Hext' E;
    cbn [app] in E.
  - injection E as E. exact E.
  - injection E as _ E. exfalso. apply Hext. rewrite E.
    apply in_or_app. right. left. reflexivity.
  - injection E as _ E. exfalso. apply Hext'. rewrite <- E.
    apply in_or_app. right. left. reflexivity.
  - injection E as _ E. exact (IH pre' Hext Hext' E).
Qed.

(** X12.  The extension that counts is the text behind the last dot of
    the path with its query string.  When that text has no slash and is
    neither ["js"] nor ["json"], and the path does not name the script
    of ReSpec, nothing is fetched and the body is empty: a script asked
    for with a query string, as in ["/a.js?v=2"], is skipped. *)
Theorem extension_decides (h : Host) (url : Url) (options : Options)
        (pre ext : jsstring) :
  path url = pre ++ 46%N :: ext ->
  ext <> [] ->
  Forall (fun c => c <> 47%N /\ c <> 46%N) ext ->
  ext <> lit "js" ->
  ext <> lit "json" ->
  ~ matchesBootstrap (path url) ->
  getUrlToFetch url options = None
  /\ download h url options = ([], Data []).
Proof.
  intros Hpath Hne Hext Hjs Hjson Hboot.
  assert (Hdot : ~ In 46%N ext).
  { intros Hin. rewrite Forall_forall in Hext.
    destruct (Hext _ Hin) as [_ H]. apply H. reflexivity. }
  assert (G : getUrlToFetch url options = None).
  { unfold getUrlToFetch.
    destruct (test reRespec (path url)) eqn:E1;
      [exfalso; apply Hboot, test_reRespec, E1|].
    rewrite (proj2 (skip_rule (path url))); [reflexivity|].
    split; [exists pre, ext; auto|].
    split; intros (pre' & E); rewrite Hpath in E.
    - apply Hjs.
      apply (last_dot_unique 46%N ext (lit "js") pre pre' Hdot); [|exact E].
      simpl. intros [H|[H|[]]]; discriminate.
    - apply Hjson.
      apply (last_dot_unique 46%N ext (lit "json") pre pre' Hdot); [|exact E].
      simpl. intros [H|[H|[H|[H|[]]]]]; discriminate. }
  split; [exact G|]. unfold download. rewrite G. reflexivity.
Qed.

Lemma extension_decides_witness :
  getUrlToFetch
    (mkUrl (lit "http://example.org/a.js?v=2") (lit "/a.js?v=2")
           (lit "/a.js"))
    (mkOptions (lit "http://example.org/")) = None
  /\ download Fixture.host
       (mkUrl (lit "http://example.org/a.js?v=2") (lit "/a.js?v=2")
              (lit "/a.js"))
       (mkOptions (lit "http://example.org/")) = ([], Data []).
Proof.
  apply (extension_decides Fixture.host _ _ (lit "/a") (lit "js?v=2")).
  - reflexivity.
  - discriminate.
  - repeat constructor; discriminate.
  - discriminate.
  - discriminate.
  - rewrite <- test_reRespec. vm_compute. discriminate.
Defined.

(** X13.  The directory of a referrer is a fixed point of
    [referrerDirectory].  A referrer without slash, such as
    ["about:blank"], has the empty directory: every URL is under it, and
    is fetched as it is unless the path names ReSpec, has a skipped
    extension or is on the deny list. *)
Theorem referrer_without_slash (url : Url) (options : Options) :
  referrerDirectory (referrerDirectory (referrer options))
  = referrerDirectory (referrer options)
  /\ (~ In 47%N (referrer options) ->
      referrerDirectory (referrer options) = []
      /\ under url options
      /\ (~ matchesBootstrap (path url) ->
          ~ (hasExtension (path url)
             /\ ~ endsIn (path url) ".js" /\ ~ endsIn (path url) ".json") ->
          ~ denied (pathname url) ->
          getUrlToFetch url options = Some (href url))).
Proof.
  destruct (referrerDirectory_spec (referrer options))
    as (file & Hr & Hfile & Hdir).
  split.
  - destruct Hdir as [->|Hends]; [reflexivity|].
    apply endsWith_spec in Hends.
    unfold referrerDirectory at 1. rewrite Hends. reflexivity.
  - intros Hslash.
    assert (Hempty : referrerDirectory (referrer options) = []).
    { destruct Hdir as [H|(pre & H)]; [exact H|].
      exfalso. apply Hslash. rewrite Hr, H.
      apply in_or_app. left. apply in_or_app. right. left. reflexivity. }
    assert (Hunder : under url options).
    { exists (href url). rewrite Hempty. reflexivity. }
    split; [exact Hempty|]. split; [exact Hunder|].
    intros Hboot Hskip Hdeny. unfold getUrlToFetch.
    destruct (test reRespec (path url)) eqn:E1;
      [exfalso; apply Hboot, test_reRespec, E1|].
    destruct (test reExtension (path url)
              && negb (endsWith (path url) (lit ".js"))
              && negb (endsWith (path url) (lit ".json"))) eqn:E2;
      [exfalso; apply Hskip, skip_rule, E2|].
    rewrite (proj2 (allow_rule url options)); [reflexivity|].
    right. split; assumption.
Qed.

Lemma referrer_without_slash_witness :
  referrerDirectory (lit "about:blank") = []
  /\ under (mkUrl (lit "https://example.org/x.js") (lit "/x.js")
                  (lit "/x.js"))
           (mkOptions (lit "about:blank"))
  /\ (~ matchesBootstrap (lit "/x.js") ->
      ~ (hasExtension (lit "/x.js")
         /\ ~ endsIn (lit "/x.js") ".js" /\ ~ endsIn (lit "/x.js") ".json") ->
      ~ denied (lit "/x.js") ->
      getUrlToFetch (mkUrl (lit "https://example.org/x.js") (lit "/x.js")
                           (lit "/x.js"))
                    (mkOptions (lit "about:blank"))
      = Some (lit "https://example.org/x.js")).
Proof.
  refine (proj2 (referrer_without_slash
                   (mkUrl (lit "https://example.org/x.js") (lit "/x.js")
                          (lit "/x.js"))
                   (mkOptions (lit "about:blank"))) _).
  simpl. intuition discriminate.
Defined.

(** ** The options of a fetch *)

Import Options.













(** A call whose options have an own property named [hasOwnProperty]
    does not get to the method when a parameter of the configuration is
    truthy; with an empty configuration the method is never called. *)
Example shadowed_call :
  let shadowing := Some (set empty "hasOwnProperty" (VBool true)) in
  fetchCall (set empty "cacheFolder" (VString (lit ".cache"))) shadowing
  = None
  /\ fetchCall empty shadowing = Some (fetchOptions empty shadowing).
Proof. split; reflexivity. Qed.

(** With the empty configuration the method is never called: the call
    gets to [baseFetch] whatever the options are. *)
Lemma fetchCall_without_configuration (e : Error) (o : option object) :
  fetchCall (readConfig (inl e)) o
  = Some (fetchOptions (readConfig (inl e)) o).
Proof. reflexivity. Qed.



(** ** The shims of the window *)

Import Shims.

(** X18.  The test of [window.fetch] on the scheme holds for every URL,
    since no string starts with both ["http:"] and ["https:"]: every
    URL, absolute or not, goes through the [href] of an anchor before it
    is fetched. *)
Theorem window_fetch_resolves_all (h : Host) (anchor : jsstring -> jsstring)
        (url : jsstring) :
  windowFetch h anchor url = fetch h (Some (anchor url)).
Proof.
  unfold windowFetch.
  destruct (startsWith url (lit "http:")) eqn:A; [|reflexivity].
  destruct (startsWith url (lit "https:")) eqn:B; [|reflexivity].
  exfalso.
  apply startsWith_spec in A as (r1 & A), B as (r2 & B).
  rewrite A in B. discriminate.
Qed.

Lemma climb_spec (up : list Node) (el : Node) :
  climb up = Some el ->
  exists pre post,
    up = pre ++ el :: post
    /\ matches el = true
    /\ Forall (fun x => matches x = false) pre
    /\ Forall (fun x => nodeType x = 1%N) (pre ++ [el]).
Proof.
  induction up as [|x up IH]; [discriminate|]. cbn [climb].
  destruct (N.eqb_spec (nodeType x) 1) as [Hx|]; [|discriminate].
  destruct (matches x) eqn:Hm.
  - intros [= <-]. exists [], up. repeat split; auto.
    repeat constructor. exact Hx.
  - intros H. destruct (IH H) as (pre & post & -> & Hel & Hpre & Hty).
    exists (x :: pre), post. repeat split; auto.
    cbn [app]. constructor; assumption.
Qed.

Lemma climb_complete (post : list Node) (el : Node) : forall pre,
  matches el = true ->
  Forall (fun x => matches x = false) pre ->
  Forall (fun x => nodeType x = 1%N) (pre ++ [el]) ->
  climb (pre ++ el :: post) = Some el.
Proof.
  induction pre as [|x pre IH]; intros Hel Hpre Hty; cbn [app climb].
  - inversion Hty as [|? ? Hx _]; subst. rewrite Hx, Hel. reflexivity.
  - inversion Hpre as [|? ? Hm Hpre']; subst.
    inversion Hty as [|? ? Hx Hty']; subst.
    rewrite Hx, Hm. cbn [N.eqb Pos.eqb]. apply IH; assumption.
Qed.

(** X19.  The shim of [closest] answers [null] for an element outside
    the document.  For an element of the document its answer is the
    nearest node that matches the selector, starting with the element
    itself and going up through parents that are elements: a node is the
    answer exactly when it matches, no node before it matches, and every
    node from the first parent to it is an element.  When the element
    does not match and its parent is missing or is no element, the
    answer is [null]. *)
Theorem closest_is_nearest (this : Node) (up : list Node)
        (contained : bool) :
  (contained = false -> closest this up contained = None)
  /\ (forall el,
         closest this up contained = Some el <->
         contained = true
         /\ matches el = true
         /\ exists pre post,
             this :: up = pre ++ el :: post
             /\ Forall (fun x => matches x = false) pre
             /\ Forall (fun x => nodeType x = 1%N) (tl (pre ++ [el])))
  /\ (matches this = false ->
      match up with
      | [] => True
      | parent :: _ => nodeType parent <> 1%N
      end ->
      closest this up contained = None).
Proof.
  unfold closest. split; [intros ->; reflexivity|]. split.
  - intros el. split.
    + destruct contained; [|discriminate]. cbn [negb].
      destruct (matches this) eqn:Hm.
      * intros [= <-]. repeat split; auto.
        exists [], up. repeat split; auto.
      * intros H.
        destruct (climb_spec up el H) as (pre & post & -> & Hel & Hpre & Hty).
        repeat split; auto. exists (this :: pre), post. repeat split; auto.
    + intros (-> & Hel & pre & post & E & Hpre & Hty). cbn [negb].
      destruct pre as [|x pre]; cbn [app] in E; injection E as <- E.
      * rewrite Hel. reflexivity.
      * inversion Hpre as [|? ? Hm Hpre']; subst.
        rewrite Hm. apply climb_complete; assumption.
  - intros Hm Hup. destruct contained; [|reflexivity]. cbn [negb].
    rewrite Hm. destruct up as [|parent up']; [reflexivity|].
    cbn [climb]. apply N.eqb_neq in Hup. rewrite Hup. reflexivity.
Qed.

Lemma closest_is_nearest_witness :
  closest (mkNode 3 1 false)
          [mkNode 2 1 true; mkNode 1 1 true; mkNode 0 9 false] true
  = Some (mkNode 2 1 true).
Proof.
  apply (proj2 (proj1 (proj2 (closest_is_nearest (mkNode 3 1 false)
                  [mkNode 2 1 true; mkNode 1 1 true; mkNode 0 9 false]
                  true))
               (mkNode 2 1 true))).
  split; [reflexivity|]. split; [reflexivity|].
  exists [mkNode 3 1 false], [mkNode 1 1 true; mkNode 0 9 false].
  split; [reflexivity|]. split; repeat constructor.
Defined.
